(** * personal-tldr: the three-stage content pipeline

    A shallow embedding of [jobs/filter.py] (Change Detector),
    [jobs/fetch_content.py] (Concurrent Retriever) and [jobs/curate.py]
    (Classifier), followed by the properties of the specification that
    are stated about them.  The embedding comes first, one module per
    source file; then the notions the statements are written with; then
    the lemmas and theorems, stage by stage.

    Conventions of the embedding
    - A Python [str] is a [string]; a character stands for the code point
      of the same number, so the model covers the code points U+0000 to
      U+00FF.  The character classes used by [str.isdigit], [str.strip],
      [int] and [re]'s [\d] are the ones CPython has on that range.
    - A Python [int] is a [Z].  Reading one from a [str] and printing one
      in an f-string are refused beyond 4300 digits, the default limit of
      CPython 3.11 (and of the later releases of 3.7 to 3.10); where the
      number printed is a length, a tally of requests or a count of days
      the limit is out of reach and is left out.
    - A Python [dict] is an association list in insertion order; assigning
      to an existing key keeps the key's position.
    - A function that logs returns its value together with the records it
      emitted; a function that may raise returns a [Result].
    - A log record keeps the level, the f-string of the source as written,
      and the interpolated values in order.
    - A file is the document it holds.  A write that the source does not
      guard completes; the write of [data/current.json], which the source
      guards with a handler, fails when the environment says that the
      file cannot be opened for writing, and then leaves it as it was. *)

From Stdlib Require Import ZArith Ascii String List Lia Bool DecimalString.
From Stdlib Require Import Floats.SpecFloat.
From Stdlib Require DecimalPos DecimalFacts.
From stdpp Require Import base decidable option list strings gmap.
Import ListNotations.

Local Open Scope string_scope.
Local Open Scope list_scope.

(** ** Python values and primitives *)

Module Py.

Inductive ExcClass :=
| ValueError | KeyError | TypeError | AttributeError | OverflowError
| OtherException (name : string).

(** An exception that derives from [Exception]: its class, as far as
    the handlers of the source tell classes apart (a class stands for
    its subclasses too), and its argument. *)
Record Exc := mkExc { exc_class : ExcClass; exc_arg : string }.

Inductive Result (A : Type) :=
| Ok (a : A)
| Raise (e : Exc).
Arguments Ok {A} a.
Arguments Raise {A} e.

(** What [json.load] / [json.loads] produce. *)
#[warnings="-register-all"]
Inductive JSON :=
| JNull
| JBool (b : bool)
| JInt (z : Z)
| JFloat (f : spec_float)
| JStr (s : string)
| JList (l : list JSON)
| JDict (d : list (string * JSON)).

Definition dict (V : Type) := list (string * V).

Fixpoint dict_get {V} (k : string) (d : dict V) : option V :=
  match d with
  | [] => None
  | (k', v) :: d' => if String.eqb k' k then Some v else dict_get k d'
  end.

(** [d[k] = v] *)
Fixpoint dict_set {V} (k : string) (v : V) (d : dict V) : dict V :=
  match d with
  | [] => [(k, v)]
  | (k', v') :: d' =>
      if String.eqb k' k then (k', v) :: d' else (k', v') :: dict_set k v d'
  end.

Definition dict_keys {V} (d : dict V) : list string := fst <$> d.
Definition dict_values {V} (d : dict V) : list V := snd <$> d.

(** [bool(v)] *)
Definition truthy (v : JSON) : bool :=
  match v with
  | JNull => false
  | JBool b => b
  | JInt z => negb (Z.eqb z 0)
  | JFloat (S754_zero _) => false
  | JFloat _ => true
  | JStr s => negb (String.eqb s "")
  | JList l => match l with [] => false | _ => true end
  | JDict d => match d with [] => false | _ => true end
  end.

(** [v == s] for a string literal [s] *)
Definition eq_str (v : JSON) (s : string) : bool :=
  match v with
  | JStr s' => String.eqb s' s
  | _ => false
  end.

(** [d.get(k)] *)
Definition get_or_none (k : string) (d : dict JSON) : JSON :=
  match dict_get k d with
  | Some v => v
  | None => JNull
  end.

(** *** Strings *)

(** [a > b] and [a <= b] on [str]: code point by code point. *)
Definition str_gt (a b : string) : bool :=
  match String.compare a b with Gt => true | _ => false end.
Definition str_le (a b : string) : bool := negb (str_gt a b).

Definition code (c : ascii) : N := N_of_ascii c.

(** [0]..[9]: the characters [\d] matches and [int] reads. *)
Definition is_decimal (c : ascii) : bool :=
  (48 <=? code c)%N && (code c <=? 57)%N.

(** [c.isdigit()]: the decimal digits and the superscripts U+00B2, U+00B3,
    U+00B9. *)
Definition char_isdigit (c : ascii) : bool :=
  is_decimal c || (code c =? 178)%N || (code c =? 179)%N || (code c =? 185)%N.

(** White space for [int]: TAB..CR, space, U+0085, U+00A0. *)
Definition int_space (c : ascii) : bool :=
  ((9 <=? code c)%N && (code c <=? 13)%N)
  || (code c =? 32)%N || (code c =? 133)%N || (code c =? 160)%N.

(** [c.isspace()], which [strip] uses: as above plus U+001C..U+001F. *)
Definition char_isspace (c : ascii) : bool :=
  int_space c || ((28 <=? code c)%N && (code c <=? 31)%N).

Fixpoint str_forall (p : ascii -> bool) (s : string) : bool :=
  match s with
  | EmptyString => true
  | String c s' => p c && str_forall p s'
  end.

(** [s.isdigit()]: non-empty and every character is a digit. *)
Definition isdigit (s : string) : bool :=
  match s with
  | EmptyString => false
  | _ => str_forall char_isdigit s
  end.

(** [bool(s.strip())]: some character is not white space. *)
Definition strip_nonempty (s : string) : bool :=
  negb (str_forall char_isspace s).

Fixpoint drop_while (p : ascii -> bool) (s : string) : string :=
  match s with
  | EmptyString => EmptyString
  | String c s' => if p c then drop_while p s' else s
  end.

Definition digit_val (c : ascii) : Z := Z.of_N (code c) - 48.

(** The digits of an [int] literal after its first digit: digits, each
    optionally preceded by one underscore, then white space to the end. *)
Fixpoint int_digits (acc : Z) (s : string) : option Z :=
  match s with
  | EmptyString => Some acc
  | String c s' =>
      if is_decimal c then int_digits (10 * acc + digit_val c) s'
      else if Ascii.eqb c "_" then
        match s' with
        | String c' s'' =>
            if is_decimal c' then int_digits (10 * acc + digit_val c') s''
            else None
        | EmptyString => None
        end
      else if str_forall int_space s then Some acc
      else None
  end.

Definition int_unsigned (s : string) : option Z :=
  match s with
  | String c s' => if is_decimal c then int_digits (digit_val c) s' else None
  | EmptyString => None
  end.

(** The reading of a [str] as an integer literal, base 10: white space,
    an optional sign, digits with single underscores between them, white
    space. *)
Definition int_literal (s : string) : option Z :=
  match drop_while int_space s with
  | String "+" s' => int_unsigned s'
  | String "-" s' => option_map Z.opp (int_unsigned s')
  | s' => int_unsigned s'
  end.

(** The number of decimal digits in a string. *)
Fixpoint count_decimal (s : string) : N :=
  match s with
  | EmptyString => 0%N
  | String c s' =>
      if is_decimal c then N.succ (count_decimal s') else count_decimal s'
  end.

(** [sys.int_info.default_max_str_digits]: the most digits that [int]
    reads from a [str] and that an [int] is printed with, in CPython 3.11
    and in the later releases of 3.7 to 3.10.  The sources leave the
    limit as the interpreter sets it. *)
Definition int_max_str_digits : N := 4300.

(** [int(s)] for a [str]: the literal, unless it has more digits than the
    limit, leading zeros counted.  [None] stands for the [ValueError] of
    either case.  (A string that reads as a literal has no digit outside
    the literal, so its digits are counted on the whole string.) *)
Definition int_of_str (s : string) : option Z :=
  if (int_max_str_digits <? count_decimal s)%N then None else int_literal s.

Definition value_error_int (s : string) : Exc :=
  mkExc ValueError s.

(** [int(f)] for a [float]: truncation towards zero. *)
Definition int_of_float (f : spec_float) : Result Z :=
  match f with
  | S754_zero _ => Ok 0%Z
  | S754_nan => Raise (mkExc ValueError "cannot convert float NaN to integer")
  | S754_infinity _ =>
      Raise (mkExc OverflowError "cannot convert float infinity to integer")
  | S754_finite sgn m e =>
      let mag := if (0 <=? e)%Z then (Z.pos m * 2 ^ e)%Z
                 else (Z.pos m / 2 ^ (- e))%Z in
      Ok (if sgn then (- mag)%Z else mag)
  end.

(** [int(v)] *)
Definition int (v : JSON) : Result Z :=
  match v with
  | JInt z => Ok z
  | JBool b => Ok (Z.b2z b)
  | JFloat f => int_of_float f
  | JStr s =>
      match int_of_str s with
      | Some z => Ok z
      | None => Raise (value_error_int s)
      end
  | JNull | JList _ | JDict _ =>
      Raise (mkExc TypeError
        "int() argument must be a string, a bytes-like object or a real number")
  end.

(** [re.search(r'(\d+)u', s)] for a unit letter [u]: the first start
    position, from the left, at which a maximal run of digits is followed
    by [u]; the result is group 1. *)
Fixpoint span_digits (s : string) : string * string :=
  match s with
  | String c s' =>
      if is_decimal c then
        let '(run, rest) := span_digits s' in (String c run, rest)
      else (EmptyString, s)
  | EmptyString => (EmptyString, EmptyString)
  end.

Fixpoint search_unit (u : ascii) (s : string) : option string :=
  match s with
  | EmptyString => None
  | String c s' =>
      let '(run, rest) := span_digits s in
      match run, rest with
      | String _ _, String c' _ =>
          if Ascii.eqb c' u then Some run else search_unit u s'
      | _, _ => search_unit u s'
      end
  end.

(** *** Logging *)

Inductive Level := INFO | WARNING | ERROR | SUCCESS.

Inductive LogArg :=
| AStr (s : string)
| AInt (z : Z)
| AVal (v : JSON)
| AExc (e : Exc).

Record LogRecord := mkLog {
  level : Level;
  template : string;
  args : list LogArg
}.

Definition Log := list LogRecord.

Definition len {A} (l : list A) : LogArg := AInt (Z.of_nat (length l)).

(** *** Computations that log and may raise *)

Definition Comp (A : Type) : Type := Result A * Log.

Definition ret {A} (a : A) : Comp A := (Ok a, []).
Definition raise {A} (e : Exc) : Comp A := (Raise e, []).
Definition lift {A} (r : Result A) : Comp A := (r, []).
Definition tell (r : LogRecord) : Comp unit := (Ok tt, [r]).

Definition bind {A B} (m : Comp A) (k : A -> Comp B) : Comp B :=
  match m with
  | (Ok a, log) => let '(r, log') := k a in (r, log ++ log')
  | (Raise e, log) => (Raise e, log)
  end.

(** [try: m except (classes): handler] *)
Definition try_except {A} (m : Comp A) (caught : ExcClass -> bool)
    (handler : Exc -> Comp A) : Comp A :=
  match m with
  | (Raise e, log) =>
      if caught (exc_class e)
      then let '(r, log') := handler e in (r, log ++ log')
      else (Raise e, log)
  | finished => finished
  end.

End Py.
Export Py.

Notation "'let*' x ':=' m 'in' k" := (bind m (fun x => k))
  (at level 10, x name, m at level 100, k at level 200).

(** ** Stage 1: the Change Detector ([jobs/filter.py]) *)

Module Filter.

(** An entry of the known-state log or of the metadata cache: the two
    fields the stage reads, and whatever other fields the mapping has. *)
Record Entry := mkEntry {
  channel : string;
  published_at : string;
  extra : dict JSON
}.

Definition pair_of (e : Entry) : string * string :=
  (channel e, published_at e).

(** *** [deduplicate_current_entries] *)

(** One iteration of the loop over [current_entries]. *)
Definition dedup_step (latest_entries : dict Entry) (entry : Entry)
  : dict Entry :=
  match dict_get (channel entry) latest_entries with
  | None => dict_set (channel entry) entry latest_entries
  | Some kept =>
      if str_gt (published_at entry) (published_at kept)
      then dict_set (channel entry) entry latest_entries
      else latest_entries
  end.

Definition latest_entries_of (current_entries : list Entry) : dict Entry :=
  fold_left dedup_step current_entries [].

Definition deduplicate_current_entries (current_entries : list Entry)
  : list Entry * Log :=
  let deduplicated_entries := dict_values (latest_entries_of current_entries) in
  (deduplicated_entries,
   [mkLog INFO
      "Deduplicated from {len(current_entries)} to {len(deduplicated_entries)} entries"
      [len current_entries; len deduplicated_entries]]).

(** *** [filter_new_entries] *)

Definition current_set_of (current_entries : list Entry)
  : gset (string * string) :=
  list_to_set (pair_of <$> current_entries).

Record FilterState := mkFilterState {
  new_entries : list Entry;
  current_entries : list Entry;   (* the caller's list, appended in place *)
  filter_log : Log
}.

(** One iteration of the loop over [latest_retrieval]; [current_set] is
    the set built before the loop and is not updated by it. *)
Definition filter_step (current_set : gset (string * string))
    (st : FilterState) (item : Entry) : FilterState :=
  if bool_decide (pair_of item ∉ current_set) then
    {| new_entries := new_entries st ++ [item];
       current_entries :=
         current_entries st ++ [mkEntry (channel item) (published_at item) []];
       filter_log := filter_log st ++
         [mkLog INFO "Adding {channel} on {published_at}"
            [AStr (channel item); AStr (published_at item)]] |}
  else
    {| new_entries := new_entries st;
       current_entries := current_entries st;
       filter_log := filter_log st ++
         [mkLog INFO "Skipping {channel} on {published_at} because it already exists"
            [AStr (channel item); AStr (published_at item)]] |}.

Definition filter_new_entries (latest_retrieval current : list Entry)
  : (list Entry * list Entry) * Log :=
  let current_set := current_set_of current in
  let st := fold_left (filter_step current_set) latest_retrieval
              (mkFilterState [] current []) in
  ((new_entries st, current_entries st), filter_log st).

(** *** [check_stale_subscriptions] *)

(** [published_at.split('T')[0] if 'T' in published_at else published_at] *)
Fixpoint date_part (published_at : string) : string :=
  match published_at with
  | EmptyString => EmptyString
  | String c s => if Ascii.eqb c "T" then EmptyString else String c (date_part s)
  end.

Section Stale.

(** [(today - datetime.fromisoformat(s).date()).days], or the
    [ValueError]/[TypeError] of the parse: calendar arithmetic against
    the clock, taken as given. *)
Variable days_since : string -> Result Z.

Definition stale_step (days_threshold : Z) (acc : Z * Log) (entry : Entry)
  : Z * Log :=
  let '(stale_count, log) := acc in
  match days_since (date_part (published_at entry)) with
  | Ok days_since_update =>
      if (days_threshold <? days_since_update)%Z then
        ((stale_count + 1)%Z,
         log ++ [mkLog WARNING
           "Subscription '{channel}' hasn't been updated for {days_since_update} days (last update: {published_at})"
           [AStr (channel entry); AInt days_since_update;
            AStr (published_at entry)]])
      else (stale_count, log)
  | Raise e =>
      (stale_count,
       log ++ [mkLog ERROR "Error parsing date for channel '{channel}': {e}"
                 [AStr (channel entry); AExc e]])
  end.

Definition check_stale_subscriptions (deduplicated_entries : list Entry)
    (days_threshold : Z) : Z * Log :=
  let '(stale_count, log) :=
    fold_left (stale_step days_threshold) deduplicated_entries (0%Z, []) in
  (stale_count,
   log ++
   [if (0 <? stale_count)%Z then
      mkLog WARNING
        "Found {stale_count} stale subscriptions (older than {days_threshold} days)"
        [AInt stale_count; AInt days_threshold]
    else
      mkLog INFO
        "All subscriptions are up to date (updated within {days_threshold} days)"
        [AInt days_threshold]]).

End Stale.

(** *** Files and services around the stage *)

(** What [json.load] gives for one cache document. *)
Inductive CacheData :=
| OneItem (item : Entry)            (* a mapping *)
| ItemList (items : list Entry)     (* a sequence of mappings *)
| NeitherDictNorList.

Record CacheFile := mkCacheFile {
  file_path : string;               (* [cache_file] *)
  file_name : string;               (* [cache_file.name] *)
  file_data : Result CacheData      (* [Raise]: unreadable or not JSON *)
}.

(** What the run reads and does not change. *)
Record Env := mkEnv {
  today : string;                          (* [%Y-%m-%d] of the clock *)
  cache_dir : string;
  cache_files : option (list CacheFile);   (* [None]: no such directory;
                                              else the files [*_{today}.json] *)
  GITHUB_ACTIONS : option string;
  GIST_ID : option string;
  GIST_TOKEN : option string;
  gist_read_error : option Exc;            (* [read_from_gist] raises *)
  gist_update_error : option Exc;          (* [update_gist] raises *)
  local_read_error : option Exc;           (* [data/current.json] unreadable *)
  local_write_error : option Exc           (* [data/current.json] cannot be
                                              opened for writing *)
}.

(** The documents the run may write. *)
Record Files := mkFiles {
  gist_current_json : list Entry;             (* [current.json] in the gist *)
  local_current_json : option (list Entry);   (* [data/current.json] *)
  content_request_json : option (list Entry)  (* [data/content_request_{today}.json] *)
}.

Definition is_github_actions_env (env : Env) : bool :=
  match GITHUB_ACTIONS env with
  | Some v => String.eqb v "true"
  | None => false
  end.

(** [not gist_id] *)
Definition env_unset (v : option string) : bool :=
  match v with
  | None => true
  | Some s => String.eqb s ""
  end.

(** *** [load_latest_updates] *)

Definition load_step (acc : list Entry * Log) (cache_file : CacheFile)
  : list Entry * Log :=
  let '(latest_retrieval, log) := acc in
  match file_data cache_file with
  | Ok cache_data =>
      (match cache_data with
       | OneItem item => latest_retrieval ++ [item]
       | ItemList items => latest_retrieval ++ items
       | NeitherDictNorList => latest_retrieval
       end,
       log ++ [mkLog INFO "Loaded cache data from {cache_file.name}"
                 [AStr (file_name cache_file)]])
  | Raise e =>
      (latest_retrieval,
       log ++ [mkLog ERROR "Error loading cache file {cache_file}: {e}"
                 [AStr (file_path cache_file); AExc e]])
  end.

Definition load_latest_updates (env : Env) : option (list Entry) * Log :=
  match cache_files env with
  | None =>
      (None, [mkLog ERROR "Error: Cache directory {cache_dir} does not exist."
                [AStr (cache_dir env)]])
  | Some [] =>
      (None, [mkLog ERROR "Error: No cache files found for date {date_str}."
                [AStr (today env)]])
  | Some files =>
      let '(latest_retrieval, log) := fold_left load_step files ([], []) in
      (Some latest_retrieval,
       log ++
       (match latest_retrieval with
        | [] => [mkLog WARNING "No raw results found in cache for date {date_str}."
                   [AStr (today env)]]
        | _ => []
        end) ++
       [mkLog INFO "Loaded {len(latest_retrieval)} entries from cache files."
          [len latest_retrieval]])
  end.

(** *** [save_content_requests] *)

Definition save_content_requests (new_entries : list Entry) (files : Files)
  : Files * Log :=
  ({| gist_current_json := gist_current_json files;
      local_current_json := local_current_json files;
      content_request_json := Some new_entries |},
   [mkLog INFO "Content requests saved to {content_request_path}" []]).

(** *** [load_current_entries] *)

Definition load_current_entries (is_github : bool) (env : Env) (files : Files)
  : list Entry * Log :=
  if is_github then
    if env_unset (GIST_ID env) then
      ([], [mkLog ERROR "Missing GIST_ID in environment variables" []])
    else
      match gist_read_error env with
      | None =>
          let current_entries := gist_current_json files in
          (current_entries,
           [mkLog INFO "Loaded {len(current_entries)} entries from Gist"
              [len current_entries]])
      | Some e => ([], [mkLog ERROR "Error reading from gist: {e}" [AExc e]])
      end
  else
    match local_current_json files with
    | None => ([], [mkLog ERROR "Error: {current_path} does not exist." []])
    | Some current_entries =>
        match local_read_error env with
        | None =>
            (current_entries,
             [mkLog INFO "Loaded {len(current_entries)} entries from {current_path}"
                [len current_entries]])
        | Some e => ([], [mkLog ERROR "Error loading {current_path}: {e}" [AExc e]])
        end
    end.

(** *** [save_current_entries] *)

Definition save_current_entries (updated_entries : list Entry)
    (is_github : bool) (env : Env) (files : Files) : (bool * Files) * Log :=
  if is_github then
    if env_unset (GIST_ID env) then
      ((false, files), [mkLog ERROR "Missing GIST_ID in environment variables" []])
    else
      match gist_update_error env with
      | None =>
          ((true,
            {| gist_current_json := updated_entries;
               local_current_json := local_current_json files;
               content_request_json := content_request_json files |}),
           [mkLog INFO "Updated gist with current entries" []])
      | Some e =>
          ((false, files), [mkLog ERROR "Error updating gist: {e}" [AExc e]])
      end
  else
    match local_write_error env with
    | None =>
        ((true,
          {| gist_current_json := gist_current_json files;
             local_current_json := Some updated_entries;
             content_request_json := content_request_json files |}),
         [mkLog INFO "Updated {current_path} with {len(updated_entries)} entries"
            [len updated_entries]])
    | Some e =>
        ((false, files),
         [mkLog ERROR "Error saving to {current_path}: {e}" [AExc e]])
    end.

(** *** [main] *)

Section Main.

Variable days_since : string -> Result Z.

Definition main (env : Env) (files : Files) : Files * Log :=
  let is_github := is_github_actions_env env in
  let log0 :=
    [mkLog INFO "Running in {env_name} environment"
       [AStr (if is_github then "GitHub Actions" else "local development")]] in
  let '(latest_retrieval, log1) := load_latest_updates env in
  match latest_retrieval with
  | None | Some [] =>
      (files,
       log0 ++ log1 ++ [mkLog WARNING "No cached content found to process." []])
  | Some latest_retrieval =>
      let '(current_entries, log2) := load_current_entries is_github env files in
      let '((new_entries, updated_current_entries), log3) :=
        filter_new_entries latest_retrieval current_entries in
      let '(deduplicated_entries, log4) :=
        deduplicate_current_entries updated_current_entries in
      let '(_, log5) := check_stale_subscriptions days_since deduplicated_entries 30 in
      let '(files1, log6) := save_content_requests new_entries files in
      let '((_, files2), log7) :=
        save_current_entries deduplicated_entries is_github env files1 in
      (files2,
       log0 ++ log1 ++ log2 ++ log3 ++ log4 ++ log5 ++ log6 ++ log7 ++
       [mkLog INFO
          "Identified {len(new_entries)} new entries requiring content retrieval out of {len(latest_retrieval)} total."
          [len new_entries; len latest_retrieval]])
  end.

End Main.

End Filter.

(** ** Stage 2: the Concurrent Retriever ([jobs/fetch_content.py]) *)

Module FetchContent.

(** A connector built with its constructor arguments and asked for
    [get_latest_update_details()]. *)
Inductive Call :=
| YoutubeConnector (channel : JSON)
| PodcastConnector (podcast_name : JSON)
| BilibiliConnector (channel uid : JSON)
| WebsiteConnector (channel source_url : JSON).

Section Retriever.

(** The connectors: what constructing one and awaiting its details
    returns or raises, given by the call.  [ValueError] is what a
    constructor raises on a missing key or setting; every other class is
    one that [except Exception] catches. *)
Variable connectors : Call -> Result JSON.

(** *** [fetch_content_by_type]; [None] is [JNull] *)
Definition fetch_content_by_type (content_request : dict JSON) : JSON * Log :=
  let content_type := get_or_none "type" content_request in
  let channel := get_or_none "channel" content_request in
  let source_url := get_or_none "source_url" content_request in
  let uid := get_or_none "uid" content_request in
  let log0 :=
    [mkLog INFO "Fetching content for {content_type}:{channel}"
       [AVal content_type; AVal channel]] in
  (* the body of [try] *)
  let attempt : Result JSON * Log :=
    if eq_str content_type "youtube" then
      (connectors (YoutubeConnector channel), [])
    else if eq_str content_type "podcast" then
      (connectors (PodcastConnector channel), [])
    else if eq_str content_type "bilibili" then
      (connectors (BilibiliConnector channel uid), [])
    else if eq_str content_type "website" then
      if negb (truthy source_url) then
        (Ok JNull,
         [mkLog ERROR
            "Missing 'source_url' in content_request for website channel: {channel}. Cannot fetch content."
            [AVal channel]])
      else (connectors (WebsiteConnector channel source_url), [])
    else
      (Ok JNull,
       [mkLog ERROR "Unsupported content type: {content_type}" [AVal content_type]])
  in
  match attempt with
  | (Ok details, log) => (details, log0 ++ log)
  | (Raise e, log) =>
      match exc_class e with
      | ValueError =>
          (JNull,
           log0 ++ log ++
           [mkLog ERROR "Initialization error for {content_type}:{channel}: {e}"
              [AVal content_type; AVal channel; AExc e]])
      | _ =>
          (JNull,
           log0 ++ log ++
           [mkLog ERROR "Error fetching content for {content_type}:{channel}: {e}"
              [AVal content_type; AVal channel; AExc e]])
      end
  end.

(** *** [main] *)

Record Files := mkFiles {
  content_request_json : option (list (dict JSON));
  raw_results_json : option (list JSON)
}.

(** [await asyncio.gather] over the tasks: one result per request, in request
    order.  The tasks share nothing, so their records are listed task by
    task. *)
Fixpoint gather (content_requests : list (dict JSON)) : list JSON * Log :=
  match content_requests with
  | [] => ([], [])
  | request :: rest =>
      let '(details, log) := fetch_content_by_type request in
      let '(all_details, log') := gather rest in
      (details :: all_details, log ++ log')
  end.

Record Tally := mkTally {
  raw_results : list JSON;
  success_count : Z;
  failure_count : Z;
  tally_log : Log
}.

(** One iteration of the loop over [enumerate(all_results_details)]. *)
Definition tally_step (t : Tally) (x : dict JSON * JSON) : Tally :=
  let '(request, content_details) := x in
  let channel := get_or_none "channel" request in
  let content_type := get_or_none "type" request in
  if truthy content_details then
    {| raw_results := raw_results t ++ [content_details];
       success_count := success_count t + 1;
       failure_count := failure_count t;
       tally_log := tally_log t ++
         [mkLog INFO
            "Successfully fetched content for {channel} - {content_type} (from concurrent tasks)"
            [AVal channel; AVal content_type]] |}
  else
    {| raw_results := raw_results t;
       success_count := success_count t;
       failure_count := failure_count t + 1;
       tally_log := tally_log t ++
         [mkLog WARNING
            "Failed to fetch content for {channel} - {content_type} (from concurrent tasks)"
            [AVal channel; AVal content_type]] |}.

Definition tally (content_requests : list (dict JSON))
    (all_results_details : list JSON) : Tally :=
  fold_left tally_step (combine content_requests all_results_details)
    (mkTally [] 0 0 []).

(** The records that close the run. *)
Definition summary (t : Tally) (content_requests : list (dict JSON)) : Log :=
  if (0 <? failure_count t)%Z then
    [mkLog WARNING "Failed to fetch {failure_count} items" [AInt (failure_count t)];
     mkLog INFO "Fetched {success_count}/{len(content_requests)} content items"
       [AInt (success_count t); len content_requests]]
  else
    [mkLog SUCCESS
       "Successfully fetched {success_count}/{len(content_requests)} content items"
       [AInt (success_count t); len content_requests]].

Definition main (files : Files) : Files * Log :=
  match content_request_json files with
  | None =>
      (files, [mkLog ERROR "Error: {content_request_path} does not exist." []])
  | Some [] =>
      ({| content_request_json := content_request_json files;
          raw_results_json := Some [] |},
       [mkLog INFO "No content requests found. Nothing to fetch." []])
  | Some content_requests =>
      let '(all_results_details, log1) := gather content_requests in
      let t := tally content_requests all_results_details in
      ({| content_request_json := content_request_json files;
          raw_results_json := Some (raw_results t) |},
       [mkLog INFO "Found {len(content_requests)} content requests to process concurrently."
          [len content_requests];
        mkLog INFO "Starting concurrent fetching for {len(tasks)} tasks..."
          [len content_requests]] ++
       log1 ++
       [mkLog INFO "Concurrent fetching complete." []] ++
       tally_log t ++
       [mkLog INFO "Raw results saved to {raw_results_path}" []] ++
       summary t content_requests)
  end.

End Retriever.

End FetchContent.

(** ** Stage 3: the Classifier ([jobs/curate.py]) *)

Module Curate.

(** *** An integer in an f-string *)

(** [f"{z}"] for an [int]: the decimal numeral, refused with a
    [ValueError] when it has more digits than the limit. *)
Definition str_of_int (z : Z) : Result string :=
  let numeral := NilZero.string_of_int (Z.to_int z) in
  if (int_max_str_digits <? count_decimal numeral)%N then
    Raise (mkExc ValueError
             "Exceeds the limit (4300 digits) for integer string conversion; use sys.set_int_max_str_digits() to increase the limit")
  else Ok numeral.

(** *** [parse_duration_to_seconds] *)

(** [m = re.search(r'(\d+)u', duration_str)] and, when it matched,
    [int(m.group(1)) * factor]; [0] when it did not. *)
Definition unit_seconds (u : ascii) (factor : Z) (duration_str : string)
  : Comp Z :=
  match search_unit u duration_str with
  | Some group1 => let* n := lift (int (JStr group1)) in ret (n * factor)%Z
  | None => ret 0%Z
  end.

Definition parse_duration_to_seconds (duration : JSON) : Comp Z :=
  match duration with
  | JInt z => ret z
  | JBool b => ret (Z.b2z b)          (* [bool] is an [int] *)
  | JStr duration_str =>
      if isdigit duration_str then lift (int (JStr duration_str))
      else
        let total_seconds := 0%Z in
        let* hours := unit_seconds "h" 3600 duration_str in
        let total_seconds := (total_seconds + hours)%Z in
        let* minutes := unit_seconds "m" 60 duration_str in
        let total_seconds := (total_seconds + minutes)%Z in
        let* seconds := unit_seconds "s" 1 duration_str in
        let total_seconds := (total_seconds + seconds)%Z in
        if (total_seconds =? 0)%Z && strip_nonempty duration_str then
          try_except (lift (int (JStr duration_str)))
            (fun c => match c with ValueError => true | _ => false end)
            (fun _ =>
               let* _ := tell (mkLog WARNING "Could not parse duration: {duration_str}, using 0"
                       [AStr duration_str]) in
               ret 0%Z)
        else ret total_seconds
  | JNull | JFloat _ | JList _ | JDict _ =>
      (* [re.search] on something that is not a string *)
      raise (mkExc TypeError "expected string or bytes-like object")
  end.

(** *** [parse_curation_response] *)

Record Curated := mkCurated {
  must_see : list (dict JSON);
  might_be_interested : list (dict JSON);
  you_may_skip : list (dict JSON)
}.

(** [item[k]] *)
Definition subscript (item : JSON) (k : string) : Result JSON :=
  match item with
  | JDict d =>
      match dict_get k d with
      | Some v => Ok v
      | None => Raise (mkExc KeyError k)
      end
  | _ => Raise (mkExc TypeError "indices must be integers or object is not subscriptable")
  end.

(** [curated_content.get(k, [])] *)
Definition get_bucket (curated_content : JSON) (k : string) : Result JSON :=
  match curated_content with
  | JDict d =>
      match dict_get k d with
      | Some v => Ok v
      | None => Ok (JList [])
      end
  | _ => Raise (mkExc AttributeError "get")
  end.

(** The items a [for] loop draws from a value. *)
Definition iterate (v : JSON) : Result (list JSON) :=
  match v with
  | JList l => Ok l
  | JDict d => Ok (map (fun kv => JStr (fst kv)) d)
  | JStr s => Ok (map (fun c => JStr (String c EmptyString)) (list_ascii_of_string s))
  | JNull | JBool _ | JInt _ | JFloat _ =>
      Raise (mkExc TypeError "object is not iterable")
  end.

Definition caught_in_bucket (c : ExcClass) : bool :=
  match c with
  | ValueError | KeyError => true
  | _ => false
  end.

(** The body of one bucket's loop: [Some] is the record appended to the
    bucket, [None] an iteration that appends nothing.  The source has
    this body three times, once per bucket name. *)
Definition process_item (bucket : string) (processed_data : list (dict JSON))
    (item : JSON) : Comp (option (dict JSON)) :=
  try_except
    (let* idx := lift (subscript item "idx") in
     let* index := lift (int idx) in
     if (0 <=? index)%Z && (index <? Z.of_nat (length processed_data))%Z then
       match nth_error processed_data (Z.to_nat index) with
       | Some record =>
           let content_item := record in              (* [.copy()] *)
           let* reason := lift (subscript item "reason") in
           ret (Some (dict_set "reason" reason content_item))
       | None => raise (mkExc (OtherException "IndexError") "list index out of range")
       end
     else
       (* the f-string of the warning prints [index] *)
       let* _ := lift (str_of_int index) in
       let* _ := tell (mkLog WARNING "Index {index} out of range for {bucket}"
               [AInt index; AStr bucket]) in
       ret None)
    caught_in_bucket
    (fun e =>
       let* _ := tell (mkLog WARNING "Error processing {bucket} item: {e}"
               [AStr bucket; AExc e]) in
       ret None).

Fixpoint process_items (bucket : string) (processed_data : list (dict JSON))
    (items : list JSON) (acc : list (dict JSON)) : Comp (list (dict JSON)) :=
  match items with
  | [] => ret acc
  | item :: rest =>
      let* r := process_item bucket processed_data item in
      process_items bucket processed_data rest
        (match r with Some content_item => acc ++ [content_item] | None => acc end)
  end.

Definition process_bucket (bucket : string) (curated_content : JSON)
    (processed_data : list (dict JSON)) : Comp (list (dict JSON)) :=
  let* v := lift (get_bucket curated_content bucket) in
  let* items := lift (iterate v) in
  process_items bucket processed_data items [].

Definition parse_curation_response (curated_content : JSON)
    (processed_data : list (dict JSON)) : Comp (option Curated) :=
  if negb (truthy curated_content) then ret None
  else
    let* a := process_bucket "must_see" curated_content processed_data in
    let* b := process_bucket "might_be_interested" curated_content processed_data in
    let* c := process_bucket "you_may_skip" curated_content processed_data in
    ret (Some (mkCurated a b c)).

(** *** The judgment service and the configuration *)

Section Classifier.

(** [load_curator_config()]: the system prompt and the model of
    [prompts/curator.toml], or what loading it raises. *)
Variable load_curator_config : Result (string * string).
(** [json.dumps(processed_data, indent=2)] *)
Variable json_dumps : list (dict JSON) -> string.
(** [api_text_completion(model, system_prompt, user_message)]: the
    service's text, or what the call raises. *)
Variable api_text_completion : string -> string -> string -> Result string.
(** [json.loads]; [None] is [json.JSONDecodeError]. *)
Variable json_loads : string -> option JSON.

(** *** [get_llm_curation]; a returned [None] is [JNull] *)
Definition get_llm_curation (processed_data : list (dict JSON)) : Comp JSON :=
  let* config := lift load_curator_config in
  let '(system_prompt, model) := config in
  let user_message := json_dumps processed_data in
  let* response := lift (api_text_completion model system_prompt user_message) in
  match json_loads response with
  | Some curated_content => ret curated_content
  | None =>
      let* _ := tell (mkLog ERROR "Failed to parse curator response as JSON" []) in
      let* _ := tell (mkLog ERROR "Response:\n{response}" [AStr response]) in
      ret JNull
  end.

(** *** [curate_content] *)
Definition curate_content (processed_data : list (dict JSON))
  : Comp (option Curated) :=
  let* curated_content := get_llm_curation processed_data in
  parse_curation_response curated_content processed_data.

(** *** [main] *)

Record Files := mkFiles {
  processed_results_json : option (list (dict JSON));
  curated_results_json : option Curated
}.

(** [sum(parse_duration_to_seconds(item['duration']) for item in items)] *)
Fixpoint duration_sum (items : list (dict JSON)) (acc : Z) : Comp Z :=
  match items with
  | [] => ret acc
  | item :: rest =>
      let* duration := lift (subscript (JDict item) "duration") in
      let* seconds := parse_duration_to_seconds duration in
      duration_sum rest (acc + seconds)%Z
  end.

Definition format_duration (seconds : Z) : Comp string :=
  let hours := (seconds / 3600)%Z in
  let minutes := ((seconds mod 3600) / 60)%Z in
  if (0 <? hours)%Z then
    let* h := lift (str_of_int hours) in
    let* m := lift (str_of_int minutes) in
    ret (h ++ "h " ++ m ++ "m")%string
  else
    let* m := lift (str_of_int minutes) in
    ret (m ++ "m")%string.

(** The part of [main] after the artifact is written.  The text of a
    duration is made when the record that carries it is logged. *)
Definition report (processed_results : list (dict JSON))
    (curated_results : Curated) : Comp unit :=
  let must_see_count := len (must_see curated_results) in
  let might_be_interested_count := len (might_be_interested curated_results) in
  let you_may_skip_count := len (you_may_skip curated_results) in
  let* must_see_duration := duration_sum (must_see curated_results) 0 in
  let* might_be_interested_duration :=
    duration_sum (might_be_interested curated_results) 0 in
  let* you_may_skip_duration := duration_sum (you_may_skip curated_results) 0 in
  let* _ := tell (mkLog INFO "Curated {len(processed_results)} items into:"
                    [len processed_results]) in
  let* must_see_text := format_duration must_see_duration in
  let* _ := tell (mkLog INFO
      "- Must see: {must_see_count} items, total duration: {format_duration(must_see_duration)}"
      [must_see_count; AStr must_see_text]) in
  let* might_be_interested_text := format_duration might_be_interested_duration in
  let* _ := tell (mkLog INFO
      "- Might be interested: {might_be_interested_count} items, total duration: {format_duration(might_be_interested_duration)}"
      [might_be_interested_count; AStr might_be_interested_text]) in
  let* you_may_skip_text := format_duration you_may_skip_duration in
  let* _ := tell (mkLog INFO
      "- You may skip: {you_may_skip_count} items, total duration: {format_duration(you_may_skip_duration)}"
      [you_may_skip_count; AStr you_may_skip_text]) in
  tell (mkLog INFO "Results saved to {curated_results_path}" []).

(** The files after the run, and what the run logged and whether it
    ended by raising. *)
Definition main (files : Files) : Files * Comp unit :=
  match processed_results_json files with
  | None =>
      (files, tell (mkLog ERROR "Error: {processed_results_path} does not exist." []))
  | Some processed_results =>
      let started :=
        tell (mkLog INFO "Curating {len(processed_results)} processed items"
                [len processed_results]) in
      match bind started (fun _ => curate_content processed_results) with
      | (Ok (Some curated_results), log) =>
          ({| processed_results_json := processed_results_json files;
              curated_results_json := Some curated_results |},
           bind (Ok tt, log) (fun _ => report processed_results curated_results))
      | (Ok None, log) =>
          (files, bind (Ok tt, log) (fun _ => tell (mkLog ERROR "Curation failed" [])))
      | (Raise e, log) => (files, (Raise e, log))
      end
  end.

End Classifier.

End Curate.

(** * Notions used by the statements *)

Module FilterNotions.
Import Filter.

(** [e] is, among the entries of [l] on its channel, the first one that
    carries the greatest [published_at]: every earlier one is strictly
    older, no later one is newer. *)
Definition first_latest (l : list Entry) (e : Entry) : Prop :=
  exists l1 l2, l = l1 ++ e :: l2 /\
    (forall x, x ∈ l1 -> channel x = channel e ->
               str_gt (published_at e) (published_at x) = true) /\
    (forall x, x ∈ l2 -> channel x = channel e ->
               str_gt (published_at x) (published_at e) = false).

(** What holds of the dictionary [latest_entries] once the loop has
    consumed the prefix [seen]. *)
Record dedup_inv (seen : list Entry) (d : dict Entry) : Prop := {
  inv_nodup : NoDup (dict_keys d);
  inv_keys : forall c, dict_get c d = None <-> c ∉ channel <$> seen;
  inv_latest : forall c e, dict_get c d = Some e ->
                           channel e = c /\ first_latest seen e
}.

(** Two occurrences of one channel with the same [published_at], told
    apart by another field. *)
Definition tie_first : Entry :=
  mkEntry "channel-a" "2024-05-01T08:00:00" [("title", JStr "first")].
Definition tie_second : Entry :=
  mkEntry "channel-a" "2024-05-01T08:00:00" [("title", JStr "second")].

(** The entry the loop appends to [current_entries] for a new item. *)
Definition known_entry_of (item : Entry) : Entry :=
  mkEntry (channel item) (published_at item) [].

Definition is_new (current_set : gset (string * string)) (item : Entry) : Prop :=
  pair_of item ∉ current_set.

(** What a first run persists as the known-state log: the log as
    updated by [filter_new_entries], deduplicated. *)
Definition persisted_log (latest known : list Entry) : list Entry :=
  (deduplicate_current_entries (filter_new_entries latest known).1.2).1.

(** The [new_entries] of a second run over the same cache. *)
Definition second_run_new_entries (latest known : list Entry) : list Entry :=
  (filter_new_entries latest (persisted_log latest known)).1.1.

(** A cache that lags behind the log: the log already holds a newer
    publication of the channel than the one the cache reports. *)
Definition lagging_cache : list Entry :=
  [mkEntry "channel-a" "2024-05-01" [("type", JStr "youtube")]].
Definition newer_log : list Entry :=
  [mkEntry "channel-a" "2024-05-02" []].

(** A cache that is ahead of the log. *)
Definition fresh_cache : list Entry :=
  [mkEntry "channel-a" "2024-05-02" [("type", JStr "youtube")]].
Definition older_log : list Entry :=
  [mkEntry "channel-a" "2024-05-01" []].

Definition no_cache_warning : LogRecord :=
  mkLog WARNING "No cached content found to process." [].

(** A day on which the cache directory does not exist and no
    content-request file has been written yet. *)
Definition env_without_cache : Env :=
  {| today := "2024-05-02"; cache_dir := "data/cache"; cache_files := None;
     GITHUB_ACTIONS := None; GIST_ID := None; GIST_TOKEN := None;
     gist_read_error := None; gist_update_error := None;
     local_read_error := None; local_write_error := None |}.
Definition files_before : Files :=
  {| gist_current_json := [];
     local_current_json := Some [mkEntry "channel-a" "2024-05-01" []];
     content_request_json := None |}.
Definition clock_today (date : string) : Result Z := Ok 0%Z.

(** A cache item whose pair of [channel] and [published_at] no entry of
    the log carries. *)
Definition is_unknown (known : list Entry) (item : Entry) : Prop :=
  pair_of item ∉ pair_of <$> known.

(** The record the loop of [filter_new_entries] logs for an item. *)
Definition filter_record (known : list Entry) (item : Entry) : LogRecord :=
  if bool_decide (is_unknown known item) then
    mkLog INFO "Adding {channel} on {published_at}"
      [AStr (channel item); AStr (published_at item)]
  else
    mkLog INFO "Skipping {channel} on {published_at} because it already exists"
      [AStr (channel item); AStr (published_at item)].

(** The distinct elements of a list, each at the place of its first
    occurrence. *)
Definition first_occurrences (l : list string) : list string :=
  fold_left (fun seen c => if bool_decide (c ∈ seen) then seen else seen ++ [c])
    l [].

(** The entry is reported stale: its date parses and lies more than the
    threshold back. *)
Definition is_stale (days_since : string -> Result Z) (days_threshold : Z)
    (entry : Entry) : bool :=
  match days_since (date_part (published_at entry)) with
  | Ok days => (days_threshold <? days)%Z
  | Raise _ => false
  end.

(** The date of the entry does not parse. *)
Definition date_fails (days_since : string -> Result Z) (entry : Entry) : bool :=
  match days_since (date_part (published_at entry)) with
  | Ok _ => false
  | Raise _ => true
  end.

(** The closing record of [check_stale_subscriptions]. *)
Definition stale_verdict (stale_count days_threshold : Z) : LogRecord :=
  if (0 <? stale_count)%Z then
    mkLog WARNING
      "Found {stale_count} stale subscriptions (older than {days_threshold} days)"
      [AInt stale_count; AInt days_threshold]
  else
    mkLog INFO
      "All subscriptions are up to date (updated within {days_threshold} days)"
      [AInt days_threshold].

(** No character of the string is the separator [T]. *)
Definition no_T (s : string) : bool :=
  str_forall (fun c => negb (Ascii.eqb c "T")) s.

(** The items one cache document contributes. *)
Definition items_of (cache_file : CacheFile) : list Entry :=
  match file_data cache_file with
  | Ok (OneItem item) => [item]
  | Ok (ItemList items) => items
  | Ok NeitherDictNorList | Raise _ => []
  end.

(** The known-state log of the run's mode cannot be read: the variable
    [GIST_ID] or the local file is missing, or reading fails. *)
Definition store_unavailable (is_github : bool) (env : Env) (files : Files)
  : Prop :=
  if is_github then
    env_unset (GIST_ID env) = true \/ gist_read_error env <> None
  else
    local_current_json files = None \/ local_read_error env <> None.

(** A cache that lists the same unknown publication twice, and one file
    of the cache that cannot be read beside one that can. *)
Definition doubled_cache : list Entry :=
  [mkEntry "channel-a" "2024-05-02" []; mkEntry "channel-a" "2024-05-02" []].
Definition two_cache_files : list CacheFile :=
  [mkCacheFile "cache/youtube_2024-05-02.json" "youtube_2024-05-02.json"
     (Raise (mkExc ValueError "Expecting value"));
   mkCacheFile "cache/podcast_2024-05-02.json" "podcast_2024-05-02.json"
     (Ok (OneItem (mkEntry "channel-b" "2024-05-02" [])))].
Definition env_with_cache : Env :=
  {| today := "2024-05-02"; cache_dir := "cache";
     cache_files := Some two_cache_files;
     GITHUB_ACTIONS := None; GIST_ID := None; GIST_TOKEN := None;
     gist_read_error := None; gist_update_error := None;
     local_read_error := None; local_write_error := None |}.
Definition env_github_no_gist : Env :=
  {| today := "2024-05-02"; cache_dir := "cache";
     cache_files := Some two_cache_files;
     GITHUB_ACTIONS := Some "true"; GIST_ID := None; GIST_TOKEN := None;
     gist_read_error := None; gist_update_error := None;
     local_read_error := None; local_write_error := None |}.
Definition env_corrupt_log : Env :=
  {| today := "2024-05-02"; cache_dir := "cache";
     cache_files := Some two_cache_files;
     GITHUB_ACTIONS := None; GIST_ID := None; GIST_TOKEN := None;
     gist_read_error := None; gist_update_error := None;
     local_read_error := Some (mkExc ValueError "Expecting value");
     local_write_error := None |}.

End FilterNotions.

Module FetchNotions.
Import FetchContent.

(** The connector a request is dispatched to, if any: none for an
    unsupported type and for a website request without [source_url]. *)
Definition selected_call (content_request : dict JSON) : option Call :=
  let content_type := get_or_none "type" content_request in
  let channel := get_or_none "channel" content_request in
  let source_url := get_or_none "source_url" content_request in
  let uid := get_or_none "uid" content_request in
  if eq_str content_type "youtube" then Some (YoutubeConnector channel)
  else if eq_str content_type "podcast" then Some (PodcastConnector channel)
  else if eq_str content_type "bilibili" then Some (BilibiliConnector channel uid)
  else if eq_str content_type "website" then
    if truthy source_url then Some (WebsiteConnector channel source_url) else None
  else None.

(** A fault becomes an absent result. *)
Definition absent_on_raise (r : Result JSON) : JSON :=
  match r with
  | Ok details => details
  | Raise _ => JNull
  end.

(** The result slot of one request. *)
Definition outcome (connectors : Call -> Result JSON) (request : dict JSON)
  : JSON :=
  match selected_call request with
  | Some c => absent_on_raise (connectors c)
  | None => JNull
  end.

(** The successes, in request order. *)
Definition compaction (connectors : Call -> Result JSON)
    (requests : list (dict JSON)) : list JSON :=
  List.filter truthy (outcome connectors <$> requests).

(** What [fetch_content_by_type] returns and logs once the connector
    selected for a request of type [content_type] on [channel] has
    answered [r]. *)
Definition settle (content_type channel : JSON) (r : Result JSON) : JSON * Log :=
  let fetching :=
    mkLog INFO "Fetching content for {content_type}:{channel}"
      [AVal content_type; AVal channel] in
  match r with
  | Ok details => (details, [fetching])
  | Raise e =>
      (JNull,
       [fetching;
        match exc_class e with
        | ValueError =>
            mkLog ERROR "Initialization error for {content_type}:{channel}: {e}"
              [AVal content_type; AVal channel; AExc e]
        | _ =>
            mkLog ERROR "Error fetching content for {content_type}:{channel}: {e}"
              [AVal content_type; AVal channel; AExc e]
        end])
  end.

(** The return value and records of a request of unsupported type. *)
Definition unsupported (content_type channel : JSON) : JSON * Log :=
  (JNull,
   [mkLog INFO "Fetching content for {content_type}:{channel}"
      [AVal content_type; AVal channel];
    mkLog ERROR "Unsupported content type: {content_type}" [AVal content_type]]).

(** Connectors that answer every call with a record. *)
Definition obliging (c : Call) : Result JSON :=
  Ok (JDict [("title", JStr "an update")]).

Definition video_request : dict JSON :=
  [("type", JStr "video"); ("channel", JStr "channel-a")].

Definition youtube_request : dict JSON :=
  [("type", JStr "youtube"); ("channel", JStr "channel-a")].
Definition website_request : dict JSON :=
  [("type", JStr "website"); ("channel", JStr "blog");
   ("source_url", JStr "https://example.org/feed")].

(** Five requests; the connector of the third raises. *)
Definition five_requests : list (dict JSON) :=
  [ [("type", JStr "youtube"); ("channel", JStr "one")];
    [("type", JStr "podcast"); ("channel", JStr "two")];
    [("type", JStr "bilibili"); ("channel", JStr "three"); ("uid", JStr "33")];
    [("type", JStr "website"); ("channel", JStr "four");
     ("source_url", JStr "https://example.org/four")];
    [("type", JStr "youtube"); ("channel", JStr "five")] ].

Definition third_raises (c : Call) : Result JSON :=
  match c with
  | BilibiliConnector _ _ => Raise (mkExc (OtherException "TimeoutError") "timed out")
  | YoutubeConnector channel | PodcastConnector channel
  | WebsiteConnector channel _ => Ok (JDict [("channel", channel)])
  end.

(** The closing record of a run in which nothing failed. *)
Definition all_fetched (n : nat) : LogRecord :=
  mkLog SUCCESS
    "Successfully fetched {success_count}/{len(content_requests)} content items"
    [AInt (Z.of_nat n); AInt (Z.of_nat n)].

(** The two closing records of a run in which [failed] of [n] requests
    failed. *)
Definition some_failed (failed n : nat) : Log :=
  [mkLog WARNING "Failed to fetch {failure_count} items"
     [AInt (Z.of_nat failed)];
   mkLog INFO "Fetched {success_count}/{len(content_requests)} content items"
     [AInt (Z.of_nat (n - failed)); AInt (Z.of_nat n)]].

(** A request whose type is missing. *)
Definition untyped_request : dict JSON := [("channel", JStr "channel-a")].

(** The one record of a run over an empty batch. *)
Definition nothing_to_fetch : LogRecord :=
  mkLog INFO "No content requests found. Nothing to fetch." [].

(** The connectors that raise wherever the given ones answer with a
    falsy value, and do as the given ones otherwise. *)
Definition as_if_raised (connectors : Call -> Result JSON) (c : Call)
  : Result JSON :=
  match connectors c with
  | Ok details =>
      if truthy details then Ok details
      else Raise (mkExc (OtherException "RuntimeError") "nothing retrieved")
  | Raise e => Raise e
  end.

(** Connectors of which the third of [five_requests] gets an empty
    record, without any fault. *)
Definition third_empty (c : Call) : Result JSON :=
  match c with
  | BilibiliConnector _ _ => Ok (JDict [])
  | YoutubeConnector channel | PodcastConnector channel
  | WebsiteConnector channel _ => Ok (JDict [("channel", channel)])
  end.

End FetchNotions.

Module CurateNotions.
Import Curate.

Definition could_not_parse (duration_str : string) : LogRecord :=
  mkLog WARNING "Could not parse duration: {duration_str}, using 0"
    [AStr duration_str].

(** The one-character string U+00B2, superscript two: a digit for
    [isdigit], not one [int] reads. *)
Definition superscript_two : string :=
  String (ascii_of_N 178) EmptyString.

(** A record that warns of a duration that could not be parsed. *)
Definition duration_warning (r : LogRecord) : Prop :=
  exists duration_str, r = could_not_parse duration_str.

(** A numeral of one digit more than [int] accepts. *)
Definition many_digits : string :=
  string_of_list_ascii (repeat "1"%char 4301).

(** An [idx] on which [int] raises nothing but a [ValueError]: an
    integer, a boolean, a string, a float that is not infinite. *)
Definition convertible (idx : JSON) : Prop :=
  forall e, int idx = Raise e -> exc_class e = ValueError.

(** A verdict that is a mapping whose [idx], when present, is
    convertible. *)
Definition orderly (item : JSON) : Prop :=
  exists verdict, item = JDict verdict /\
    forall idx, dict_get "idx" verdict = Some idx -> convertible idx.

(** A batch of one record, and a response whose first verdict carries a
    JSON [null] where the index should be; the second verdict is sound. *)
Definition one_record : list (dict JSON) :=
  [[("channel", JStr "channel-a"); ("duration", JStr "12m")]].
Definition null_idx_response : JSON :=
  JDict [("must_see",
          JList [JDict [("idx", JNull); ("reason", JStr "no index given")];
                 JDict [("idx", JInt 0); ("reason", JStr "worth the time")]]);
         ("might_be_interested", JList []);
         ("you_may_skip", JList [])].


Definition no_json (text : string) : option JSON := None.
Definition indented_dumps (processed_data : list (dict JSON)) : string := "[]".
Definition files_of_the_day : Files :=
  {| processed_results_json := Some one_record; curated_results_json := None |}.

(** The record a sound verdict contributes to its bucket: the batch
    record at its index with the verdict's reason set; nothing when the
    verdict is not a mapping, lacks [idx] or [reason], or its [idx] is
    not an index of the batch. *)
Definition retained (processed_data : list (dict JSON)) (item : JSON)
  : option (dict JSON) :=
  match item with
  | JDict verdict =>
      match dict_get "idx" verdict, dict_get "reason" verdict with
      | Some idx, Some reason =>
          match int idx with
          | Ok index =>
              if (0 <=? index)%Z then
                option_map (dict_set "reason" reason)
                  (nth_error processed_data (Z.to_nat index))
              else None
          | Raise _ => None
          end
      | _, _ => None
      end
  | _ => None
  end.

(** The items of the three buckets of a curated result. *)
Definition curated_items (curated : Curated) : list (dict JSON) :=
  must_see curated ++ might_be_interested curated ++ you_may_skip curated.

(** The seconds of an item whose [duration] is there and parses. *)
Definition seconds_of (item : dict JSON) : option Z :=
  match dict_get "duration" item with
  | Some duration =>
      match (parse_duration_to_seconds duration).1 with
      | Ok seconds => Some seconds
      | Raise _ => None
      end
  | None => None
  end.

Definition total_seconds (items : list (dict JSON)) : Z :=
  fold_right (fun item total => (default 0%Z (seconds_of item) + total)%Z)
    0%Z items.

(** A service that answers with a given text, and parsers that read it
    as a given value. *)
Definition answering (text : string) (model system_prompt user_message : string)
  : Result string := Ok text.
Definition reading_as (v : JSON) (text : string) : option JSON := Some v.
Definition failing_service (model system_prompt user_message : string)
  : Result string := Raise (mkExc (OtherException "APIError") "unavailable").

(** A response that places the only record in a bucket, and a record
    without [duration]. *)
Definition sound_response : JSON :=
  JDict [("must_see",
          JList [JDict [("idx", JInt 0); ("reason", JStr "worth the time")]])].
Definition record_without_duration : list (dict JSON) :=
  [[("channel", JStr "channel-a")]].

(** The record [main] logs when it starts on a batch. *)
Definition curating (processed_results : list (dict JSON)) : LogRecord :=
  mkLog INFO "Curating {len(processed_results)} processed items"
    [len processed_results].

End CurateNotions.

(** * Properties *)

(** ** The order on strings *)

Section StringOrder.

Lemma ascii_compare_lt_trans a b c :
  Ascii.compare a b = Lt -> Ascii.compare b c = Lt -> Ascii.compare a c = Lt.
Proof.
  unfold Ascii.compare. rewrite !N.compare_lt_iff. lia.
Qed.

Lemma ascii_compare_refl a : Ascii.compare a a = Eq.
Proof. unfold Ascii.compare. apply N.compare_refl. Qed.

Lemma compare_lt_trans a : forall b c,
  String.compare a b = Lt -> String.compare b c = Lt -> String.compare a c = Lt.
Proof.
  induction a as [|x a IH]; intros [|y b] [|z c]; simpl; try congruence.
  destruct (Ascii.compare x y) eqn:Hxy; try discriminate.
  - apply Ascii.compare_eq_iff in Hxy as ->.
    destruct (Ascii.compare y z); try discriminate; eauto.
  - intros _. destruct (Ascii.compare y z) eqn:Hyz; try discriminate.
    + apply Ascii.compare_eq_iff in Hyz as <-. now rewrite Hxy.
    + intros _. now rewrite (ascii_compare_lt_trans _ _ _ Hxy Hyz).
Qed.

Lemma compare_gt_lt a b : String.compare a b = Gt <-> String.compare b a = Lt.
Proof.
  rewrite (String.compare_antisym b a).
  destruct (String.compare a b); simpl; split; congruence.
Qed.

Lemma compare_refl a : String.compare a a = Eq.
Proof.
  induction a as [|x a IH]; simpl; [easy|]. now rewrite ascii_compare_refl.
Qed.

Lemma str_gt_irrefl a : str_gt a a = false.
Proof. unfold str_gt. now rewrite compare_refl. Qed.

Lemma str_gt_trans a b c :
  str_gt a b = true -> str_gt b c = true -> str_gt a c = true.
Proof.
  unfold str_gt.
  destruct (String.compare a b) eqn:Hab; try discriminate.
  destruct (String.compare b c) eqn:Hbc; try discriminate.
  intros _ _. apply compare_gt_lt in Hab, Hbc.
  assert (String.compare a c = Gt) as ->; [|easy].
  apply compare_gt_lt. eapply compare_lt_trans; eauto.
Qed.

(** [x <= b] and [a > b] give [a > x]. *)
Lemma str_gt_le_trans a b x :
  str_gt a b = true -> str_gt x b = false -> str_gt a x = true.
Proof.
  intros Hab Hxb. unfold str_gt in Hxb.
  destruct (String.compare x b) eqn:Hc; try discriminate.
  - apply String.compare_eq_iff in Hc as ->. exact Hab.
  - apply str_gt_trans with b; [exact Hab|].
    unfold str_gt. apply compare_gt_lt in Hc. now rewrite Hc.
Qed.

Lemma str_le_antisym a b :
  str_gt a b = false -> str_gt b a = false -> a = b.
Proof.
  unfold str_gt. rewrite (String.compare_antisym b a).
  destruct (String.compare a b) eqn:Hc; simpl; try discriminate.
  intros _ _. now apply String.compare_eq_iff.
Qed.

End StringOrder.

(** ** Computations *)

Section CompLaws.

Context {A B C : Type}.

Lemma bind_ret_l (a : A) (k : A -> Comp B) : bind (ret a) k = k a.
Proof. unfold bind, ret. now destruct (k a). Qed.

Lemma bind_ret_r (m : Comp A) : bind m ret = m.
Proof. destruct m as [[a|e] log]; simpl; [|reflexivity]. now rewrite app_nil_r. Qed.

Lemma bind_assoc (m : Comp A) (k : A -> Comp B) (h : B -> Comp C) :
  bind (bind m k) h = bind m (fun a => bind (k a) h).
Proof.
  destruct m as [[a|e] log]; simpl; [|reflexivity].
  destruct (k a) as [[b|e] log']; simpl; [|reflexivity].
  destruct (h b) as [r log'']. now rewrite app_assoc.
Qed.

(** A handler is not entered when nothing is raised. *)
Lemma try_except_ok (a : A) (log : Log) caught (handler : Exc -> Comp A) :
  try_except (Ok a, log) caught handler = (Ok a, log).
Proof. reflexivity. Qed.

End CompLaws.

(** ** Dictionaries *)

Section Dict.

Context {V : Type}.
Implicit Types (d : dict V) (k : string) (v : V).

Lemma dict_get_set k k' v d :
  dict_get k' (dict_set k v d) =
  if String.eqb k k' then Some v else dict_get k' d.
Proof.
  induction d as [|[k0 v0] d IH]; simpl.
  - destruct (String.eqb_spec k k'); reflexivity.
  - destruct (String.eqb_spec k0 k) as [->|Hne]; simpl.
    + destruct (String.eqb_spec k k'); reflexivity.
    + rewrite IH. destruct (String.eqb_spec k0 k') as [->|]; [|reflexivity].
      destruct (String.eqb_spec k k'); congruence.
Qed.

Lemma dict_get_None k d : dict_get k d = None <-> k ∉ dict_keys d.
Proof.
  induction d as [|[k0 v0] d IH]; simpl.
  - split; [intros _; apply not_elem_of_nil | reflexivity].
  - rewrite not_elem_of_cons. destruct (String.eqb_spec k0 k) as [->|Hne].
    + split; [discriminate | intros [? _]; congruence].
    + rewrite IH. intuition congruence.
Qed.

Lemma dict_get_elem k v d : dict_get k d = Some v -> (k, v) ∈ d.
Proof.
  induction d as [|[k0 v0] d IH]; simpl; [discriminate|].
  destruct (String.eqb_spec k0 k) as [->|Hne].
  - intros [= ->]. apply list_elem_of_here.
  - intros H. apply list_elem_of_further, IH, H.
Qed.

Lemma dict_elem_get k v d : NoDup (dict_keys d) -> (k, v) ∈ d -> dict_get k d = Some v.
Proof.
  induction d as [|[k0 v0] d IH]; simpl; intros Hnd Hin.
  - now apply elem_of_nil in Hin.
  - apply NoDup_cons in Hnd as [Hk0 Hnd]. apply elem_of_cons in Hin as [[= -> ->]|Hin].
    + now rewrite String.eqb_refl.
    + destruct (String.eqb_spec k0 k) as [->|Hne]; [|now apply IH].
      exfalso. apply Hk0. unfold dict_keys.
      apply (list_elem_of_fmap_2 fst) in Hin. exact Hin.
Qed.

Lemma dict_keys_set k v d :
  dict_keys (dict_set k v d) =
  match dict_get k d with
  | Some _ => dict_keys d
  | None => dict_keys d ++ [k]
  end.
Proof.
  induction d as [|[k0 v0] d IH]; simpl; [reflexivity|].
  destruct (String.eqb_spec k0 k) as [->|Hne]; simpl; [reflexivity|].
  rewrite IH. now destruct (dict_get k d).
Qed.

Lemma dict_set_NoDup k v d :
  NoDup (dict_keys d) -> NoDup (dict_keys (dict_set k v d)).
Proof.
  intros Hnd. rewrite dict_keys_set.
  destruct (dict_get k d) eqn:Hget; [exact Hnd|].
  apply dict_get_None in Hget.
  apply NoDup_app. split; [exact Hnd|]. split.
  - intros x Hx Hx'. apply list_elem_of_singleton in Hx' as ->. contradiction.
  - apply NoDup_singleton.
Qed.

End Dict.

(** ** The Change Detector *)

Module FilterSpec.
Import Filter FilterNotions.

Lemma first_latest_elem l e : first_latest l e -> e ∈ l.
Proof.
  intros (l1 & l2 & -> & _). apply elem_of_app. right. apply list_elem_of_here.
Qed.

Lemma first_latest_max l e x :
  first_latest l e -> x ∈ l -> channel x = channel e ->
  str_gt (published_at x) (published_at e) = false.
Proof.
  intros (l1 & l2 & -> & Hbefore & Hafter) Hx Hc.
  apply elem_of_app in Hx as [Hx|Hx].
  - specialize (Hbefore x Hx Hc).
    destruct (str_gt (published_at x) (published_at e)) eqn:Hgt; [|reflexivity].
    pose proof (str_gt_trans _ _ _ Hbefore Hgt) as Hirr.
    now rewrite str_gt_irrefl in Hirr.
  - apply elem_of_cons in Hx as [->|Hx]; [apply str_gt_irrefl | now apply Hafter].
Qed.

Lemma first_latest_snoc_keep l e x :
  first_latest l e ->
  (channel x = channel e -> str_gt (published_at x) (published_at e) = false) ->
  first_latest (l ++ [x]) e.
Proof.
  intros (l1 & l2 & -> & Hbefore & Hafter) Hx.
  exists l1, (l2 ++ [x]). split; [now rewrite <- app_assoc|]. split; [exact Hbefore|].
  intros y Hy Hc. apply elem_of_app in Hy as [Hy|Hy]; [now apply Hafter|].
  apply list_elem_of_singleton in Hy as ->. now apply Hx.
Qed.

Lemma first_latest_snoc_new l x :
  (forall y, y ∈ l -> channel y = channel x ->
             str_gt (published_at x) (published_at y) = true) ->
  first_latest (l ++ [x]) x.
Proof.
  intros Hall. exists l, []. split; [reflexivity|]. split; [exact Hall|].
  intros y Hy. now apply elem_of_nil in Hy.
Qed.

Lemma dedup_inv_nil : dedup_inv [] [].
Proof.
  split; simpl.
  - apply NoDup_nil_2.
  - intros c. split; [intros _; apply not_elem_of_nil | reflexivity].
  - discriminate.
Qed.

Lemma channel_snoc seen x c :
  c ∉ channel <$> (seen ++ [x]) <-> (c ∉ channel <$> seen) /\ c <> channel x.
Proof.
  rewrite fmap_app, not_elem_of_app. simpl. rewrite list_elem_of_singleton. tauto.
Qed.

Lemma dedup_step_inv seen d x :
  dedup_inv seen d -> dedup_inv (seen ++ [x]) (dedup_step d x).
Proof.
  intros [Hnd Hkeys Hlatest]. unfold dedup_step.
  destruct (dict_get (channel x) d) as [kept|] eqn:Hget.
  - destruct (Hlatest _ _ Hget) as [Hck Hfl].
    destruct (str_gt (published_at x) (published_at kept)) eqn:Hgt.
    + (* the newer entry replaces the kept one *)
      split.
      * now apply dict_set_NoDup.
      * intros c. rewrite dict_get_set, channel_snoc.
        destruct (String.eqb_spec (channel x) c) as [<-|Hne].
        -- split; [discriminate | intros [_ ?]; congruence].
        -- rewrite Hkeys. intuition congruence.
      * intros c e. rewrite dict_get_set.
        destruct (String.eqb_spec (channel x) c) as [<-|Hne].
        -- intros [= <-]. split; [reflexivity|].
           apply first_latest_snoc_new. intros y Hy Hc.
           apply str_gt_le_trans with (published_at kept); [exact Hgt|].
           apply first_latest_max with seen; [exact Hfl | exact Hy | congruence].
        -- intros He. destruct (Hlatest _ _ He) as [Hce Hfe]. split; [exact Hce|].
           apply first_latest_snoc_keep; [exact Hfe | congruence].
    + (* the kept entry stays *)
      split.
      * exact Hnd.
      * intros c. rewrite channel_snoc, <- Hkeys.
        split; [|tauto]. intros Hc. split; [exact Hc | congruence].
      * intros c e He. destruct (Hlatest _ _ He) as [Hce Hfe]. split; [exact Hce|].
        apply first_latest_snoc_keep; [exact Hfe|].
        intros Hc. assert (e = kept) as -> by congruence. exact Hgt.
  - (* a channel seen for the first time *)
    pose proof (proj1 (Hkeys _) Hget) as Hfresh.
    split.
    + now apply dict_set_NoDup.
    + intros c. rewrite dict_get_set, channel_snoc.
      destruct (String.eqb_spec (channel x) c) as [<-|Hne].
      * split; [discriminate | intros [_ ?]; congruence].
      * rewrite Hkeys. intuition congruence.
    + intros c e. rewrite dict_get_set.
      destruct (String.eqb_spec (channel x) c) as [<-|Hne].
      * intros [= <-]. split; [reflexivity|].
        apply first_latest_snoc_new. intros y Hy Hc. exfalso. apply Hfresh.
        rewrite <- Hc. now apply list_elem_of_fmap_2.
      * intros He. destruct (Hlatest _ _ He) as [Hce Hfe]. split; [exact Hce|].
        apply first_latest_snoc_keep; [exact Hfe | congruence].
Qed.

Lemma dedup_fold_inv l : forall seen d,
  dedup_inv seen d -> dedup_inv (seen ++ l) (fold_left dedup_step l d).
Proof.
  induction l as [|x l IH]; intros seen d Hinv; simpl.
  - now rewrite app_nil_r.
  - replace (seen ++ x :: l) with ((seen ++ [x]) ++ l) by now rewrite <- app_assoc.
    apply IH, dedup_step_inv, Hinv.
Qed.

Lemma latest_entries_inv l : dedup_inv l (latest_entries_of l).
Proof. apply (dedup_fold_inv l [] []), dedup_inv_nil. Qed.

Lemma dict_keys_channels (d : dict Entry) :
  (forall k e, (k, e) ∈ d -> channel e = k) ->
  channel <$> dict_values d = dict_keys d.
Proof.
  induction d as [|[k e] d IH]; intros Hd; simpl; [reflexivity|].
  f_equal.
  - apply Hd, list_elem_of_here.
  - apply IH. intros k' e' Hin. apply Hd, list_elem_of_further, Hin.
Qed.

Lemma kept_channels l :
  channel <$> (deduplicate_current_entries l).1 = dict_keys (latest_entries_of l).
Proof.
  destruct (latest_entries_inv l) as [Hnd _ Hlatest]. simpl.
  apply dict_keys_channels. intros k e Hin.
  apply (dict_elem_get _ _ _ Hnd), Hlatest in Hin. tauto.
Qed.

Lemma kept_first_latest l e :
  e ∈ (deduplicate_current_entries l).1 -> first_latest l e.
Proof.
  destruct (latest_entries_inv l) as [Hnd _ Hlatest]. simpl. intros Hin.
  apply list_elem_of_fmap in Hin as ([k e'] & -> & Hin).
  apply (dict_elem_get _ _ _ Hnd), Hlatest in Hin. tauto.
Qed.

Lemma kept_channel_iff l c :
  c ∈ channel <$> (deduplicate_current_entries l).1 <-> c ∈ channel <$> l.
Proof.
  rewrite kept_channels. destruct (latest_entries_inv l) as [_ Hkeys _].
  specialize (Hkeys c). rewrite dict_get_None in Hkeys.
  destruct (decide (c ∈ dict_keys (latest_entries_of l)));
    destruct (decide (c ∈ channel <$> l)); tauto.
Qed.

(** C3. For every known-state log, [deduplicate_current_entries] returns
    as many entries as the log has distinct channels, exactly one on each
    of those channels, and each returned entry is an entry of the log
    whose [published_at] no entry of the log on the same channel exceeds
    under the comparison of strings. *)
Theorem dedup_one_latest_per_channel (entries : list Entry) :
  let kept := (deduplicate_current_entries entries).1 in
  length kept = size (list_to_set (channel <$> entries) : gset string)
  /\ NoDup (channel <$> kept)
  /\ (forall c, c ∈ channel <$> kept <-> c ∈ channel <$> entries)
  /\ (forall e, e ∈ kept ->
        e ∈ entries /\
        forall x, x ∈ entries -> channel x = channel e ->
                  str_le (published_at x) (published_at e) = true).
Proof.
  intros kept. subst kept.
  pose proof (latest_entries_inv entries) as [Hnd _ _].
  repeat split.
  - assert (list_to_set (channel <$> entries) =@{gset string}
            list_to_set (channel <$> (deduplicate_current_entries entries).1))
      as ->.
    { apply set_eq. intros c. rewrite !elem_of_list_to_set.
      symmetry. apply kept_channel_iff. }
    rewrite size_list_to_set; [now rewrite length_fmap|].
    now rewrite kept_channels.
  - now rewrite kept_channels.
  - apply kept_channel_iff.
  - apply kept_channel_iff.
  - now apply first_latest_elem, kept_first_latest.
  - intros x Hx Hc. unfold str_le.
    rewrite (first_latest_max entries e x); auto using kept_first_latest.
Qed.

(** C4, as the code has it.  For every list of entries, the entry that
    [deduplicate_current_entries] keeps for a channel is the occurrence
    met first among those that carry the channel's greatest
    [published_at]: every entry of the channel before it is strictly
    older and none after it is newer, so of two occurrences with equal
    [published_at] the earlier one is kept. *)
Theorem dedup_tie_keeps_first (entries : list Entry) (e : Entry) :
  e ∈ (deduplicate_current_entries entries).1 ->
  exists before after,
    entries = before ++ e :: after
    /\ (forall x, x ∈ before -> channel x = channel e ->
          str_gt (published_at e) (published_at x) = true)
    /\ (forall x, x ∈ after -> channel x = channel e ->
          str_le (published_at x) (published_at e) = true).
Proof.
  intros Hin. destruct (kept_first_latest _ _ Hin) as (l1 & l2 & -> & Hb & Ha).
  exists l1, l2. repeat split; [exact Hb|].
  intros x Hx Hc. unfold str_le. now rewrite Ha.
Qed.

(** C4 as stated fails: of two tied occurrences the one met later is not
    the one kept. *)
Lemma dedup_tie_later_not_kept :
  channel tie_first = channel tie_second
  /\ published_at tie_first = published_at tie_second
  /\ (deduplicate_current_entries [tie_first; tie_second]).1 = [tie_first]
  /\ tie_second ∉ (deduplicate_current_entries [tie_first; tie_second]).1.
Proof.
  repeat split. vm_compute. intros Hin.
  apply list_elem_of_singleton in Hin. discriminate Hin.
Qed.

Lemma dedup_tie_keeps_first_witness :
  tie_first ∈ (deduplicate_current_entries [tie_first; tie_second]).1 /\
  exists before after,
    [tie_first; tie_second] = before ++ tie_first :: after
    /\ (forall x, x ∈ before -> channel x = channel tie_first ->
          str_gt (published_at tie_first) (published_at x) = true)
    /\ (forall x, x ∈ after -> channel x = channel tie_first ->
          str_le (published_at x) (published_at tie_first) = true).
Proof.
  assert (tie_first ∈ (deduplicate_current_entries [tie_first; tie_second]).1)
    as Hin by (vm_compute; apply list_elem_of_here).
  split; [exact Hin|].
  apply (dedup_tie_keeps_first [tie_first; tie_second] tie_first Hin).
Defined.

(** *** [filter_new_entries] as a filter *)

Lemma filter_fold current_set latest : forall st,
  let st' := fold_left (filter_step current_set) latest st in
  new_entries st' = new_entries st ++ filter (is_new current_set) latest
  /\ current_entries st' =
     current_entries st ++ (known_entry_of <$> filter (is_new current_set) latest).
Proof.
  induction latest as [|x latest IH]; intros st; simpl.
  - now rewrite !app_nil_r.
  - destruct (IH (filter_step current_set st x)) as [Hn Hc].
    rewrite Hn, Hc. unfold filter_step, is_new.
    rewrite filter_cons.
    case_bool_decide; destruct (decide (pair_of x ∉ current_set));
      try contradiction; simpl; now rewrite <- ?app_assoc.
Qed.

Lemma filter_new_entries_spec latest known :
  let new := filter (is_new (current_set_of known)) latest in
  (filter_new_entries latest known).1 = (new, known ++ (known_entry_of <$> new)).
Proof.
  unfold filter_new_entries. simpl.
  destruct (filter_fold (current_set_of known) latest (mkFilterState [] known []))
    as [Hn Hc].
  rewrite Hn, Hc. reflexivity.
Qed.

Lemma is_new_iff known x :
  is_new (current_set_of known) x <-> pair_of x ∉ pair_of <$> known.
Proof. unfold is_new, current_set_of. now rewrite elem_of_list_to_set. Qed.

Lemma filter_nil_iff {A} (P : A -> Prop) `{forall x, Decision (P x)} (l : list A) :
  filter P l = [] <-> forall x, x ∈ l -> ~ P x.
Proof.
  split.
  - intros Hnil x Hx HP. eapply filter_nil_not_elem_of; eauto.
  - intros Hall. apply elem_of_nil_inv. intros x Hx.
    apply list_elem_of_filter in Hx as [HP Hx]. now apply (Hall x).
Qed.

(** *** Running the stage again *)

Lemma updated_covers_cache latest known x :
  x ∈ latest -> pair_of x ∈ pair_of <$> (filter_new_entries latest known).1.2.
Proof.
  intros Hx. rewrite filter_new_entries_spec. simpl. rewrite fmap_app, elem_of_app.
  destruct (decide (pair_of x ∈ pair_of <$> known)) as [Hin|Hnin]; [now left|right].
  apply list_elem_of_fmap. exists (known_entry_of x). split; [reflexivity|].
  apply list_elem_of_fmap_2, list_elem_of_filter. split; [|exact Hx].
  now apply is_new_iff.
Qed.

Lemma updated_from_inputs latest known u :
  u ∈ (filter_new_entries latest known).1.2 ->
  exists y, y ∈ known ++ latest /\ pair_of y = pair_of u.
Proof.
  rewrite filter_new_entries_spec. simpl. rewrite elem_of_app. intros [Hu|Hu].
  - exists u. split; [apply elem_of_app; now left | reflexivity].
  - apply list_elem_of_fmap in Hu as (y & -> & Hy).
    apply list_elem_of_filter in Hy as [_ Hy].
    exists y. split; [apply elem_of_app; now right | reflexivity].
Qed.

Lemma pair_of_eq a b :
  pair_of a = pair_of b <-> channel a = channel b /\ published_at a = published_at b.
Proof. unfold pair_of. split; [intros [= -> ->] | intros [-> ->]]; easy. Qed.

(** C1, as the code has it.  For every metadata cache and every initial
    known-state log, the second run over the same cache, reading the log
    the first run persisted, yields no new entry exactly when every item
    of the cache carries the greatest [published_at] of its channel
    among the initial log and the cache. *)
Theorem rerun_no_new_entries_iff (latest known : list Entry) :
  second_run_new_entries latest known = [] <->
  (forall x e, x ∈ latest -> e ∈ known ++ latest -> channel e = channel x ->
               str_le (published_at e) (published_at x) = true).
Proof.
  unfold second_run_new_entries. rewrite filter_new_entries_spec. simpl.
  rewrite filter_nil_iff. unfold persisted_log.
  set (updated := (filter_new_entries latest known).1.2).
  split.
  - intros Hnone x y Hx Hy Hc.
    specialize (Hnone x Hx). rewrite is_new_iff in Hnone.
    apply dec_stable, list_elem_of_fmap in Hnone as (e & Hpair & He).
    apply pair_of_eq in Hpair as [Hce Hpe].
    assert (exists u, u ∈ updated /\ pair_of u = pair_of y) as (u & Hu & Huy).
    { apply elem_of_app in Hy as [Hy|Hy].
      - exists y. split; [|reflexivity]. subst updated.
        rewrite filter_new_entries_spec. simpl. apply elem_of_app. now left.
      - pose proof (updated_covers_cache latest known y Hy) as Hcov.
        apply list_elem_of_fmap in Hcov as (u & Hp & Hu). now exists u. }
    apply pair_of_eq in Huy as [Hcu Hpu].
    unfold str_le. rewrite Hpe, <- Hpu.
    rewrite (first_latest_max updated e u); auto using kept_first_latest.
    congruence.
  - intros Hdom x Hx. rewrite is_new_iff. intros Hnew. apply Hnew. clear Hnew.
    pose proof (updated_covers_cache latest known x Hx) as Hcov.
    fold updated in Hcov.
    apply list_elem_of_fmap in Hcov as (u & Hp & Hu).
    apply pair_of_eq in Hp as [Hcu Hpu].
    assert (channel x ∈ channel <$> (deduplicate_current_entries updated).1)
      as Hkept.
    { apply kept_channel_iff. rewrite Hcu. now apply list_elem_of_fmap_2. }
    apply list_elem_of_fmap in Hkept as (e & Hce & He).
    pose proof (kept_first_latest _ _ He) as Hfl.
    apply list_elem_of_fmap. exists e. split; [|exact He].
    apply pair_of_eq. split; [exact Hce|].
    apply str_le_antisym.
    + rewrite Hpu. apply (first_latest_max updated e u Hfl Hu). congruence.
    + destruct (updated_from_inputs latest known e (first_latest_elem _ _ Hfl))
        as (y & Hy & Hpy).
      apply pair_of_eq in Hpy as [Hcy Hpy].
      specialize (Hdom x y Hx Hy ltac:(congruence)).
      unfold str_le in Hdom. rewrite Hpy in Hdom.
      now destruct (str_gt (published_at e) (published_at x)).
Qed.

(** C1 as stated fails: the second run reports the cache's item again. *)
Lemma rerun_yields_new_entry :
  persisted_log lagging_cache newer_log = newer_log
  /\ second_run_new_entries lagging_cache newer_log = lagging_cache
  /\ second_run_new_entries lagging_cache newer_log <> [].
Proof. vm_compute. repeat split. discriminate. Qed.

Lemma rerun_no_new_entries_witness :
  second_run_new_entries fresh_cache older_log = [].
Proof.
  apply (proj2 (rerun_no_new_entries_iff fresh_cache older_log)).
  intros x e Hx He Hc.
  apply list_elem_of_singleton in Hx as ->.
  apply elem_of_cons in He as [->|He]; [reflexivity|].
  apply list_elem_of_singleton in He as ->. reflexivity.
Defined.

(** A run in local mode over a non-empty cache, the log readable and
    writable, persists exactly [persisted_log] and writes the new entries as the day's content
    requests, so that a second run reads what those notions describe. *)
Lemma main_local_run (days_since : string -> Result Z) (env : Env)
    (files : Files) (latest known : list Entry) :
  is_github_actions_env env = false ->
  (load_latest_updates env).1 = Some latest -> latest <> [] ->
  local_current_json files = Some known -> local_read_error env = None ->
  local_write_error env = None ->
  (main days_since env files).1 =
  {| gist_current_json := gist_current_json files;
     local_current_json := Some (persisted_log latest known);
     content_request_json := Some (filter_new_entries latest known).1.1 |}.
Proof.
  intros Hlocal Hload Hne Hfile Hread Hwrite. unfold main, persisted_log.
  rewrite Hlocal. destruct (load_latest_updates env) as [loaded log1].
  simpl in Hload. subst loaded. destruct latest as [|item latest]; [easy|].
  unfold load_current_entries, save_current_entries. rewrite Hfile, Hread, Hwrite.
  destruct (filter_new_entries (item :: latest) known) as [[new updated] log3].
  simpl.
  destruct (check_stale_subscriptions days_since
              (dict_values (latest_entries_of updated)) 30) as [stale log5].
  reflexivity.
Qed.

(** Two runs in a row over the same non-empty cache, in local mode:
    the second run's content requests are [second_run_new_entries]. *)
Lemma main_local_rerun (days_since : string -> Result Z) (env : Env)
    (files : Files) (latest known : list Entry) :
  is_github_actions_env env = false ->
  (load_latest_updates env).1 = Some latest -> latest <> [] ->
  local_current_json files = Some known -> local_read_error env = None ->
  local_write_error env = None ->
  content_request_json
    (main days_since env (main days_since env files).1).1
  = Some (second_run_new_entries latest known).
Proof.
  intros Hlocal Hload Hne Hfile Hread Hwrite.
  rewrite (main_local_run days_since env files latest known) by assumption.
  now rewrite (main_local_run days_since env _ latest (persisted_log latest known)).
Qed.

(** *** The run on an empty cache *)

(** C5, as the code has it.  Whenever the day's metadata cache is missing
    or empty ([load_latest_updates] returns [None] or an empty list), the
    run writes nothing: the known-state log, local or in the gist, is
    left as it was, and so is the day's content-request file, which is
    not created when it does not exist; the run ends on the warning that
    no cached content was found. *)
Theorem empty_cache_writes_nothing
    (days_since : string -> Result Z) (env : Env) (files : Files) :
  (load_latest_updates env).1 = None \/ (load_latest_updates env).1 = Some [] ->
  (main days_since env files).1 = files
  /\ last (main days_since env files).2 = Some no_cache_warning.
Proof.
  intros Hempty. unfold main.
  destruct (load_latest_updates env) as [latest log1]. simpl in Hempty.
  destruct Hempty as [-> | ->]; simpl; (split; [reflexivity|]);
    rewrite app_comm_cons, last_snoc; reflexivity.
Qed.

(** C5 as stated fails: no empty content-request file is produced. *)
Lemma empty_cache_no_request_file :
  (load_latest_updates env_without_cache).1 = None
  /\ content_request_json (main clock_today env_without_cache files_before).1 = None
  /\ content_request_json (main clock_today env_without_cache files_before).1
     <> Some [].
Proof. vm_compute. repeat split. discriminate. Qed.

Lemma empty_cache_writes_nothing_witness :
  ((load_latest_updates env_without_cache).1 = None
   \/ (load_latest_updates env_without_cache).1 = Some [])
  /\ (main clock_today env_without_cache files_before).1 = files_before
  /\ last (main clock_today env_without_cache files_before).2
     = Some no_cache_warning.
Proof.
  assert ((load_latest_updates env_without_cache).1 = None
          \/ (load_latest_updates env_without_cache).1 = Some []) as H
    by (left; reflexivity).
  split; [exact H|].
  exact (empty_cache_writes_nothing clock_today env_without_cache files_before H).
Defined.

(** *** More on [filter_new_entries] *)

Lemma is_new_unknown (known : list Entry) (x : Entry) : is_new (current_set_of known) x <-> is_unknown known x.
Proof. apply is_new_iff. Qed.

Lemma filter_unknown (latest known : list Entry) :
  filter (is_new (current_set_of known)) latest = filter (is_unknown known) latest.
Proof. apply list_filter_iff. intros x. apply is_new_unknown. Qed.

Lemma filter_fold_log (known latest : list Entry) : forall st,
  filter_log (fold_left (filter_step (current_set_of known)) latest st) =
  filter_log st ++ (filter_record known <$> latest).
Proof.
  induction latest as [|x latest IH]; intros st; simpl.
  - now rewrite app_nil_r.
  - rewrite IH. unfold filter_step, filter_record.
    rewrite (bool_decide_ext _ _ (is_new_unknown known x)).
    destruct (bool_decide (is_unknown known x)); simpl; now rewrite <- app_assoc.
Qed.

(** X1. [filter_new_entries] returns, in the order of the cache, exactly
    the items whose pair no entry of the log carries; the log it returns
    is the log it was given followed by one two-field entry per new item;
    and it logs one record per cache item, in order. *)
Theorem new_entries_are_the_unknown_items (latest known : list Entry) :
  filter_new_entries latest known =
  ((filter (is_unknown known) latest,
    known ++ (known_entry_of <$> filter (is_unknown known) latest)),
   filter_record known <$> latest).
Proof.
  pose proof (filter_new_entries_spec latest known) as Hspec. cbv zeta in Hspec.
  rewrite filter_unknown in Hspec.
  assert ((filter_new_entries latest known).2 = filter_record known <$> latest)
    as Hlog.
  { unfold filter_new_entries. simpl. now rewrite filter_fold_log. }
  destruct (filter_new_entries latest known) as [pair log].
  simpl in *. now subst.
Qed.

(** X2. [filter_new_entries] reports nothing new exactly when the log
    already carries the pair of every cache item, and then it returns the
    log as it was given. *)
Theorem nothing_new_iff_all_known (latest known : list Entry) :
  ((filter_new_entries latest known).1.1 = [] <->
   forall x, x ∈ latest -> pair_of x ∈ pair_of <$> known)
  /\ ((filter_new_entries latest known).1.1 = [] ->
      (filter_new_entries latest known).1.2 = known).
Proof.
  rewrite filter_new_entries_spec. simpl. rewrite filter_unknown. split.
  - rewrite filter_nil_iff. unfold is_unknown. split.
    + intros H x Hx. apply dec_stable. now apply H.
    + intros H x Hx Hnot. apply Hnot. now apply H.
  - intros ->. simpl. apply app_nil_r.
Qed.

(** X3. Whether an item is new does not depend on the other items of the
    cache: over a cache made of two parts the new entries are those of
    the first part followed by those of the second, each part tested
    against the log as given.  So an unknown publication listed twice in
    the cache is requested twice. *)
Theorem new_entries_of_app (latest1 latest2 known : list Entry) :
  (filter_new_entries (latest1 ++ latest2) known).1.1 =
    (filter_new_entries latest1 known).1.1 ++ (filter_new_entries latest2 known).1.1
  /\ (forall x, is_unknown known x ->
        (filter_new_entries [x; x] known).1.1 = [x; x]).
Proof.
  rewrite !filter_new_entries_spec. simpl. split.
  - apply filter_app.
  - intros x Hx. apply is_new_unknown in Hx.
    unfold filter_step. rewrite !(bool_decide_eq_true_2 _ Hx). reflexivity.
Qed.

Lemma new_entries_of_app_witness :
  is_unknown [] (mkEntry "channel-a" "2024-05-02" [])
  /\ (filter_new_entries doubled_cache []).1.1 = doubled_cache.
Proof.
  assert (is_unknown [] (mkEntry "channel-a" "2024-05-02" [])) as H
    by apply not_elem_of_nil.
  split; [exact H|].
  exact (proj2 (new_entries_of_app [] [] []) _ H).
Defined.

(** *** More on [deduplicate_current_entries] *)

Lemma dict_set_fresh {V} (k : string) (v : V) (d : dict V) :
  dict_get k d = None -> dict_set k v d = d ++ [(k, v)].
Proof.
  induction d as [|[k0 v0] d IH]; simpl; [reflexivity|].
  destruct (String.eqb k0 k); [discriminate|]. intros H. now rewrite IH.
Qed.

Lemma dedup_fold_distinct (l : list Entry) : forall d : dict Entry,
  NoDup (dict_keys d ++ (channel <$> l)) ->
  fold_left dedup_step l d = d ++ ((fun e => (channel e, e)) <$> l).
Proof.
  induction l as [|x l IH]; intros d Hnd; simpl.
  - now rewrite app_nil_r.
  - assert (dict_get (channel x) d = None) as Hfresh.
    { apply dict_get_None. apply NoDup_app in Hnd as (_ & Hdisj & _).
      intros Hin. apply (Hdisj _ Hin). apply list_elem_of_here. }
    unfold dedup_step at 2. rewrite Hfresh, (dict_set_fresh _ _ _ Hfresh).
    rewrite IH.
    + now rewrite <- app_assoc.
    + unfold dict_keys. rewrite fmap_app. simpl.
      rewrite <- app_assoc. exact Hnd.
Qed.

Lemma dedup_distinct (l : list Entry) :
  NoDup (channel <$> l) -> (deduplicate_current_entries l).1 = l.
Proof.
  intros Hnd. simpl. unfold latest_entries_of.
  rewrite dedup_fold_distinct by exact Hnd. simpl.
  unfold dict_values. rewrite <- list_fmap_compose.
  apply list_fmap_id.
Qed.

(** X4. On a log that has one entry per channel
    [deduplicate_current_entries] returns the log itself, entries and
    order unchanged. *)
Theorem dedup_keeps_distinct_log (entries : list Entry) :
  NoDup (channel <$> entries) ->
  (deduplicate_current_entries entries).1 = entries.
Proof. apply dedup_distinct. Qed.

Lemma dedup_keeps_distinct_log_witness :
  NoDup (channel <$> newer_log)
  /\ (deduplicate_current_entries newer_log).1 = newer_log.
Proof.
  assert (NoDup (channel <$> newer_log)) as H by apply NoDup_singleton.
  split; [exact H | exact (dedup_keeps_distinct_log newer_log H)].
Defined.

(** X5. Deduplicating twice is deduplicating once. *)
Theorem dedup_idempotent (entries : list Entry) :
  (deduplicate_current_entries (deduplicate_current_entries entries).1).1 =
  (deduplicate_current_entries entries).1.
Proof.
  apply dedup_distinct. rewrite kept_channels.
  apply (inv_nodup _ _ (latest_entries_inv entries)).
Qed.

Lemma dedup_step_keys (d : dict Entry) (x : Entry) :
  dict_keys (dedup_step d x) =
  if bool_decide (channel x ∈ dict_keys d) then dict_keys d
  else dict_keys d ++ [channel x].
Proof.
  unfold dedup_step. destruct (dict_get (channel x) d) as [kept|] eqn:Hget.
  - rewrite bool_decide_eq_true_2.
    + destruct (str_gt _ _); [|reflexivity]. now rewrite dict_keys_set, Hget.
    + apply dec_stable. intros Hnot. apply dict_get_None in Hnot. congruence.
  - rewrite dict_keys_set, Hget. apply dict_get_None in Hget.
    now rewrite bool_decide_eq_false_2.
Qed.

Lemma dedup_fold_keys (l : list Entry) : forall d : dict Entry,
  dict_keys (fold_left dedup_step l d) =
  fold_left (fun seen c => if bool_decide (c ∈ seen) then seen else seen ++ [c])
    (channel <$> l) (dict_keys d).
Proof.
  induction l as [|x l IH]; intros d; simpl; [reflexivity|].
  now rewrite IH, dedup_step_keys.
Qed.

(** X6. The entries [deduplicate_current_entries] returns are ordered by
    the first occurrence of their channel in the input, whichever
    occurrence of the channel is the one kept. *)
Theorem dedup_order_of_first_occurrence (entries : list Entry) :
  channel <$> (deduplicate_current_entries entries).1 =
  first_occurrences (channel <$> entries).
Proof.
  rewrite kept_channels. unfold latest_entries_of. apply dedup_fold_keys.
Qed.

(** *** What a run keeps of the log *)

Lemma updated_has_pair (latest known : list Entry) (e : Entry) :
  e ∈ known ++ latest ->
  exists u, u ∈ (filter_new_entries latest known).1.2 /\ pair_of u = pair_of e.
Proof.
  intros He. apply elem_of_app in He as [He|He].
  - exists e. split; [|reflexivity].
    rewrite filter_new_entries_spec. simpl. apply elem_of_app. now left.
  - pose proof (updated_covers_cache latest known e He) as Hcov.
    apply list_elem_of_fmap in Hcov as (u & Hp & Hu). now exists u.
Qed.

(** X7. The log a run persists never loses a channel and never goes
    back: for every entry of the log it read and every item of the cache,
    the persisted log has an entry on the same channel whose
    [published_at] is at least as great. *)
Theorem persisted_log_never_regresses (latest known : list Entry) (e : Entry) :
  e ∈ known ++ latest ->
  exists e', e' ∈ persisted_log latest known
             /\ channel e' = channel e
             /\ str_le (published_at e) (published_at e') = true.
Proof.
  intros He. destruct (updated_has_pair latest known e He) as (u & Hu & Hp).
  apply pair_of_eq in Hp as [Hc Hpa]. unfold persisted_log.
  set (updated := (filter_new_entries latest known).1.2) in *.
  assert (channel e ∈ channel <$> (deduplicate_current_entries updated).1) as Hk.
  { apply kept_channel_iff. rewrite <- Hc. now apply list_elem_of_fmap_2. }
  apply list_elem_of_fmap in Hk as (e' & Hce & He').
  exists e'. split; [exact He'|]. split; [now symmetry|].
  unfold str_le. rewrite <- Hpa.
  rewrite (first_latest_max updated e' u); auto using kept_first_latest.
  congruence.
Qed.

Lemma persisted_log_never_regresses_witness :
  mkEntry "channel-a" "2024-05-02" [] ∈ newer_log ++ lagging_cache
  /\ exists e', e' ∈ persisted_log lagging_cache newer_log
                /\ channel e' = "channel-a"
                /\ str_le "2024-05-02" (published_at e') = true.
Proof.
  assert (mkEntry "channel-a" "2024-05-02" [] ∈ newer_log ++ lagging_cache)
    as H by apply list_elem_of_here.
  split; [exact H|].
  exact (persisted_log_never_regresses lagging_cache newer_log _ H).
Defined.

(** *** [check_stale_subscriptions] *)

Section StaleSpec.

Variable days_since : string -> Result Z.
Variable days_threshold : Z.

Lemma stale_step_spec (acc : Z * Log) (e : Entry) :
  (stale_step days_since days_threshold acc e).1 =
    (acc.1 + Z.of_nat (length (List.filter (is_stale days_since days_threshold) [e])))%Z
  /\ length (stale_step days_since days_threshold acc e).2 =
     length acc.2
     + length (List.filter (is_stale days_since days_threshold) [e])
     + length (List.filter (date_fails days_since) [e]).
Proof.
  destruct acc as [n log]. unfold stale_step, is_stale, date_fails. simpl.
  destruct (days_since (date_part (published_at e))) as [days|err].
  - destruct (days_threshold <? days)%Z; simpl; rewrite ?length_app; simpl;
      split; lia.
  - simpl. rewrite length_app. simpl. split; lia.
Qed.

Lemma stale_fold (entries : list Entry) : forall acc : Z * Log,
  (fold_left (stale_step days_since days_threshold) entries acc).1 =
    (acc.1 + Z.of_nat (length (List.filter (is_stale days_since days_threshold)
                                 entries)))%Z
  /\ length (fold_left (stale_step days_since days_threshold) entries acc).2 =
     length acc.2
     + length (List.filter (is_stale days_since days_threshold) entries)
     + length (List.filter (date_fails days_since) entries).
Proof.
  induction entries as [|e entries IH]; intros acc; cbn [fold_left].
  - simpl. split; lia.
  - destruct (IH (stale_step days_since days_threshold acc e)) as [H1 H2].
    destruct (stale_step_spec acc e) as [S1 S2].
    rewrite H1, H2, S1, S2.
    change (e :: entries) with ([e] ++ entries).
    rewrite !List.filter_app, !length_app. split; lia.
Qed.

(** X8. [check_stale_subscriptions] returns the number of entries whose
    date parses and lies more than the threshold back; an entry whose
    date does not parse is not counted and does not stop the scan; the
    run logs one record per stale entry and per unparseable one, then
    one closing record, a warning exactly when the count is positive. *)
Theorem stale_count_is_number_of_stale (entries : list Entry) :
  let stale := List.filter (is_stale days_since days_threshold) entries in
  let unparsed := List.filter (date_fails days_since) entries in
  let r := check_stale_subscriptions days_since entries days_threshold in
  r.1 = Z.of_nat (length stale)
  /\ length r.2 = length stale + length unparsed + 1
  /\ last r.2 = Some (stale_verdict r.1 days_threshold).
Proof.
  intros stale unparsed r. subst r. unfold check_stale_subscriptions.
  pose proof (stale_fold entries (0%Z, [])) as [H1 H2].
  destruct (fold_left (stale_step days_since days_threshold) entries (0%Z, []))
    as [stale_count log].
  simpl in *. subst stale unparsed. rewrite length_app, H2, last_snoc. simpl.
  split; [lia|]. split; reflexivity.
Qed.

End StaleSpec.

Lemma no_T_date_part (s : string) : no_T s = true -> date_part s = s.
Proof.
  induction s as [|c s IH]; simpl; [reflexivity|].
  intros [Hc Hs]%andb_true_iff. apply negb_true_iff in Hc. rewrite Hc.
  now rewrite IH.
Qed.

(** X9. The date portion [check_stale_subscriptions] parses: a timestamp
    without the separator [T] is taken whole; of a date, free of [T],
    followed by [T] and anything, the date is taken; and the portion
    taken never contains a [T]. *)
Theorem date_part_is_what_precedes_T :
  (forall s, no_T s = true -> date_part s = s)
  /\ (forall date time, no_T date = true ->
        date_part (date ++ String "T" time) = date)
  /\ (forall s, no_T (date_part s) = true).
Proof.
  split; [exact no_T_date_part|]. split.
  - intros date time. induction date as [|c date IH]; simpl; [reflexivity|].
    intros [Hc Hs]%andb_true_iff. apply negb_true_iff in Hc. rewrite Hc.
    now rewrite IH.
  - intros s. induction s as [|c s IH]; simpl; [reflexivity|].
    destruct (Ascii.eqb c "T") eqn:Hc; simpl; [reflexivity|].
    unfold no_T in *. simpl. now rewrite Hc, IH.
Qed.

Lemma date_part_is_what_precedes_T_witness :
  no_T "2024-05-01" = true
  /\ date_part "2024-05-01" = "2024-05-01"
  /\ date_part "2024-05-01T08:00:00Z" = "2024-05-01".
Proof.
  pose proof date_part_is_what_precedes_T as (Hwhole & Hsplit & _).
  assert (no_T "2024-05-01" = true) as H by reflexivity.
  split; [exact H|]. split.
  - exact (Hwhole "2024-05-01" H).
  - exact (Hsplit "2024-05-01" "08:00:00Z" H).
Defined.

(** *** [load_latest_updates] *)

Lemma load_fold (files : list CacheFile) : forall (acc : list Entry) (log : Log),
  (fold_left load_step files (acc, log)).1 = acc ++ concat (items_of <$> files).
Proof.
  induction files as [|f files IH]; intros acc log; cbn [fold_left].
  - simpl. now rewrite app_nil_r.
  - unfold load_step at 2, items_of at 1. cbn [fmap list_fmap concat].
    destruct (file_data f) as [[item|items|]|e]; rewrite IH;
      rewrite <- ?app_assoc; reflexivity.
Qed.

(** X10. [load_latest_updates] returns [None] exactly when the cache
    directory is missing or holds no file for the day; otherwise it
    returns the items of the day's documents, document by document in
    the order listed, a mapping counting as one item, a sequence as its
    elements, and a document that cannot be read or is neither counting
    for nothing without stopping the others. *)
Theorem latest_updates_are_the_readable_items (env : Env) :
  (load_latest_updates env).1 =
  match cache_files env with
  | None | Some [] => None
  | Some files => Some (concat (items_of <$> files))
  end.
Proof.
  unfold load_latest_updates. destruct (cache_files env) as [[|f files]|];
    try reflexivity.
  pose proof (load_fold (f :: files) [] []) as H.
  destruct (fold_left load_step (f :: files) ([], [])) as [latest log] eqn:E.
  simpl. f_equal. change latest with (latest, log).1. rewrite <- E. exact H.
Qed.

(** *** Saving the known-state log *)

(** In local mode a log that cannot be opened for writing is left as it
    was: the save logs the fault and returns [False]. *)
Lemma save_local_fault
    (updated : list Entry) (env : Env) (files : Files) (e : Exc) :
  local_write_error env = Some e ->
  save_current_entries updated false env files
  = ((false, files),
     [mkLog ERROR "Error saving to {current_path}: {e}" [AExc e]]).
Proof. intros Hfault. unfold save_current_entries. now rewrite Hfault. Qed.

Lemma save_frame
    (updated : list Entry) (is_github : bool) (env : Env) (files : Files) :
  let saved := (save_current_entries updated is_github env files).1 in
  (saved.1 = false -> saved.2 = files)
  /\ content_request_json saved.2 = content_request_json files
  /\ (is_github = true ->
      local_current_json saved.2 = local_current_json files)
  /\ (is_github = false ->
      gist_current_json saved.2 = gist_current_json files).
Proof.
  unfold save_current_entries. destruct is_github.
  - destruct (env_unset (GIST_ID env)); [now repeat split|].
    destruct (gist_update_error env); now repeat split.
  - destruct (local_write_error env); now repeat split.
Qed.

(** *** [main] over a cache that has items *)

Section MainSpec.

Variable days_since : string -> Result Z.

(** On an empty or missing cache nothing is written. *)
Lemma empty_cache_silent (env : Env) (files : Files) :
  (load_latest_updates env).1 = None \/ (load_latest_updates env).1 = Some [] ->
  (main days_since env files).1 = files.
Proof.
  intros Hempty. unfold main.
  destruct (load_latest_updates env) as [latest log1]. simpl in Hempty.
  now destruct Hempty as [-> | ->].
Qed.

Lemma all_new_against_empty_log (known l : list Entry) :
  known = [] -> filter (is_new (current_set_of known)) l = l.
Proof.
  intros ->. induction l as [|x l IH]; [reflexivity|].
  rewrite filter_cons_True; [now rewrite IH|].
  apply is_new_iff, not_elem_of_nil.
Qed.

(** The files after a run over a non-empty cache: the content requests
    are written, then the deduplicated log is saved. *)
Lemma main_with_cache (env : Env) (files : Files) (latest : list Entry) :
  (load_latest_updates env).1 = Some latest -> latest <> [] ->
  let is_github := is_github_actions_env env in
  let current := (load_current_entries is_github env files).1 in
  let filtered := (filter_new_entries latest current).1 in
  (main days_since env files).1 =
  (save_current_entries (deduplicate_current_entries filtered.2).1
     is_github env (save_content_requests filtered.1 files).1).1.2.
Proof.
  intros Hload Hne is_github current filtered. subst filtered current is_github.
  unfold main.
  destruct (load_latest_updates env) as [loaded log1]. simpl in Hload.
  subst loaded. destruct latest as [|item latest]; [easy|].
  destruct (load_current_entries (is_github_actions_env env) env files)
    as [current log2].
  cbn [fst snd].
  destruct (filter_new_entries (item :: latest) current)
    as [[new updated] log3].
  cbn [fst snd deduplicate_current_entries].
  destruct (check_stale_subscriptions days_since
              (dict_values (latest_entries_of updated)) 30) as [stale log5].
  cbn [save_content_requests fst snd].
  destruct (save_current_entries (dict_values (latest_entries_of updated))
              (is_github_actions_env env) env _) as [[ok files2] log7].
  reflexivity.
Qed.

(** X12. Over a non-empty cache [main] writes the new entries as the
    day's content requests before it saves the log, and whether or not
    the save succeeds: in GitHub mode without [GIST_ID], or when
    updating the gist fails, the content requests are on file and the
    known-state log, in the gist and locally, is as it was before the
    run. *)
Theorem failed_save_keeps_log_and_requests
    (env : Env) (files : Files) (latest : list Entry) :
  (load_latest_updates env).1 = Some latest -> latest <> [] ->
  is_github_actions_env env = true ->
  env_unset (GIST_ID env) = true \/ gist_update_error env <> None ->
  let after := (main days_since env files).1 in
  gist_current_json after = gist_current_json files
  /\ local_current_json after = local_current_json files
  /\ content_request_json after =
     Some (filter_new_entries latest
             (load_current_entries true env files).1).1.1.
Proof.
  intros Hload Hne Hgithub Hfail after. subst after.
  rewrite (main_with_cache env files latest Hload Hne). rewrite Hgithub.
  unfold save_current_entries.
  destruct (env_unset (GIST_ID env)); [now repeat split|].
  destruct Hfail as [Hfail|Hfail]; [discriminate|].
  destruct (gist_update_error env); [now repeat split | congruence].
Qed.

(** X13. Every known-state document [main] writes has at most one entry
    per channel: after a run, the gist's log and the local log are each
    either as before or a list without two entries on one channel. *)
Theorem written_log_has_one_entry_per_channel (env : Env) (files : Files) :
  let after := (main days_since env files).1 in
  (gist_current_json after = gist_current_json files
   \/ NoDup (channel <$> gist_current_json after))
  /\ (local_current_json after = local_current_json files
      \/ exists log, local_current_json after = Some log
                     /\ NoDup (channel <$> log)).
Proof.
  intros after. subst after.
  destruct (load_latest_updates env) as [loaded log1] eqn:Hload.
  assert (loaded = None \/ loaded = Some [] \/
          exists latest, loaded = Some latest /\ latest <> []) as Hcases.
  { destruct loaded as [[|x l]|]; [now right; left | | now left].
    right; right. now exists (x :: l). }
  destruct Hcases as [->|[->|(latest & -> & Hne)]].
  - rewrite (empty_cache_silent env files ltac:(left; now rewrite Hload)).
    split; now left.
  - rewrite (empty_cache_silent env files ltac:(right; now rewrite Hload)).
    split; now left.
  - rewrite (main_with_cache env files latest ltac:(now rewrite Hload) Hne).
    set (kept := (deduplicate_current_entries _).1).
    assert (NoDup (channel <$> kept)) as Hnd.
    { subst kept. rewrite kept_channels.
      apply (inv_nodup _ _ (latest_entries_inv _)). }
    unfold save_current_entries.
    destruct (is_github_actions_env env).
    + destruct (env_unset (GIST_ID env)); [split; now left|].
      destruct (gist_update_error env); [split; now left|].
      split; [right; exact Hnd | now left].
    + destruct (local_write_error env); [split; now left|].
      split; [now left | right; eauto].
Qed.

(** X14. When the known-state log of the run's mode cannot be read (no
    [GIST_ID], no local file, or a failing read) the run goes on with an
    empty log, so that every item of a non-empty cache, repetitions
    included, becomes a content request. *)
Theorem unreadable_log_requests_everything
    (env : Env) (files : Files) (latest : list Entry) :
  (load_latest_updates env).1 = Some latest -> latest <> [] ->
  store_unavailable (is_github_actions_env env) env files ->
  (load_current_entries (is_github_actions_env env) env files).1 = []
  /\ content_request_json (main days_since env files).1 = Some latest.
Proof.
  intros Hload Hne Hstore.
  assert ((load_current_entries (is_github_actions_env env) env files).1 = [])
    as Hempty.
  { unfold store_unavailable, load_current_entries in *.
    destruct (is_github_actions_env env).
    - destruct (env_unset (GIST_ID env)); [reflexivity|].
      destruct Hstore as [?|Hstore]; [discriminate|].
      destruct (gist_read_error env); [reflexivity | congruence].
    - destruct (local_current_json files); [|reflexivity].
      destruct Hstore as [?|Hstore]; [discriminate|].
      destruct (local_read_error env); [reflexivity | congruence]. }
  split; [exact Hempty|].
  rewrite (main_with_cache env files latest Hload Hne), Hempty.
  rewrite (proj1 (proj2 (save_frame _ _ _ _))).
  rewrite filter_new_entries_spec. cbn [save_content_requests fst snd].
  cbn [content_request_json]. f_equal. now apply all_new_against_empty_log.
Qed.

End MainSpec.

(** X15. The staleness check is advisory: what [main] writes does not
    depend on how the dates of the log parse or on the clock. *)
Theorem stale_check_changes_no_file
    (days_since days_since' : string -> Result Z) (env : Env) (files : Files) :
  (main days_since env files).1 = (main days_since' env files).1.
Proof.
  destruct (load_latest_updates env) as [loaded log1] eqn:Hload.
  destruct loaded as [[|x l]|].
  - now rewrite !(empty_cache_silent _ env files
                    ltac:(right; now rewrite Hload)).
  - now rewrite !(main_with_cache _ env files (x :: l)
                    ltac:(now rewrite Hload) ltac:(easy)).
  - now rewrite !(empty_cache_silent _ env files
                    ltac:(left; now rewrite Hload)).
Qed.

Lemma failed_save_keeps_log_and_requests_witness :
  is_github_actions_env env_github_no_gist = true
  /\ gist_current_json (main clock_today env_github_no_gist files_before).1
     = gist_current_json files_before
  /\ local_current_json (main clock_today env_github_no_gist files_before).1
     = local_current_json files_before
  /\ content_request_json (main clock_today env_github_no_gist files_before).1
     = Some [mkEntry "channel-b" "2024-05-02" []].
Proof.
  assert (is_github_actions_env env_github_no_gist = true) as H by reflexivity.
  split; [exact H|].
  exact (failed_save_keeps_log_and_requests clock_today env_github_no_gist
           files_before [mkEntry "channel-b" "2024-05-02" []]
           eq_refl ltac:(discriminate) H (or_introl eq_refl)).
Defined.

Lemma unreadable_log_requests_everything_witness :
  store_unavailable (is_github_actions_env env_corrupt_log) env_corrupt_log
    files_before
  /\ content_request_json (main clock_today env_corrupt_log files_before).1
     = Some [mkEntry "channel-b" "2024-05-02" []].
Proof.
  assert (store_unavailable (is_github_actions_env env_corrupt_log)
            env_corrupt_log files_before) as H by (right; discriminate).
  split; [exact H|].
  exact (proj2 (unreadable_log_requests_everything clock_today env_corrupt_log
                  files_before [mkEntry "channel-b" "2024-05-02" []]
                  eq_refl ltac:(discriminate) H)).
Defined.

End FilterSpec.

(** ** The Concurrent Retriever *)

Module FetchSpec.
Import FetchContent FetchNotions.

Section WithConnectors.

Variable connectors : Call -> Result JSON.

Lemma fetch_value request :
  (fetch_content_by_type connectors request).1 = outcome connectors request.
Proof.
  unfold fetch_content_by_type, outcome, selected_call.
  repeat lazymatch goal with
         | |- context [if eq_str ?v ?s then _ else _] => destruct (eq_str v s)
         | |- context [truthy ?v] => destruct (truthy v); simpl
         end;
    try reflexivity;
    match goal with
    | |- context [connectors ?c] =>
        destruct (connectors c) as [details|[[] msg]]; reflexivity
    end.
Qed.

Lemma gather_values requests :
  (gather connectors requests).1 = outcome connectors <$> requests.
Proof.
  induction requests as [|request rest IH]; simpl; [reflexivity|].
  pose proof (fetch_value request) as Hvalue.
  destruct (fetch_content_by_type connectors request) as [details log].
  destruct (gather connectors rest) as [all_details log'].
  simpl in *. f_equal; [exact Hvalue | exact IH].
Qed.

End WithConnectors.

(** The loop over the results keeps the truthy ones, in order, and counts
    both kinds. *)
Lemma tally_fold pairs : forall t,
  raw_results (fold_left tally_step pairs t) =
    raw_results t ++ List.filter truthy pairs.*2
  /\ success_count (fold_left tally_step pairs t) =
     (success_count t + Z.of_nat (length (List.filter truthy pairs.*2)))%Z
  /\ failure_count (fold_left tally_step pairs t) =
     (failure_count t + Z.of_nat (length pairs)
      - Z.of_nat (length (List.filter truthy pairs.*2)))%Z.
Proof.
  induction pairs as [|[request details] pairs IH]; intros t.
  - simpl. rewrite app_nil_r. repeat split; lia.
  - cbn [fold_left]. destruct (IH (tally_step t (request, details))) as (Hr & Hs & Hf).
    rewrite Hr, Hs, Hf. unfold tally_step. cbn [fmap list_fmap snd List.filter].
    destruct (truthy details); cbn [raw_results success_count failure_count length].
    + rewrite <- app_assoc. repeat split; lia.
    + repeat split; lia.
Qed.

Lemma combine_snd {A B} (l : list A) (k : list B) :
  length l = length k -> (combine l k).*2 = k.
Proof.
  revert k. induction l as [|a l IH]; intros [|b k]; simpl; try discriminate.
  - reflexivity.
  - intros [= Hlen]. now rewrite IH.
Qed.

Lemma tally_spec (requests : list (dict JSON)) (results : list JSON) :
  length requests = length results ->
  let t := tally requests results in
  let kept := List.filter truthy results in
  raw_results t = kept
  /\ success_count t = Z.of_nat (length kept)
  /\ failure_count t = (Z.of_nat (length requests) - Z.of_nat (length kept))%Z.
Proof.
  intros Hlen. unfold tally.
  destruct (tally_fold (combine requests results) (mkTally [] 0 0 []))
    as (Hr & Hs & Hf).
  rewrite combine_snd in Hr, Hs, Hf by exact Hlen.
  rewrite length_combine, <- Hlen, Nat.min_id in Hf.
  cbv zeta. rewrite Hr, Hs, Hf. simpl. repeat split; lia.
Qed.

Lemma gather_length connectors requests :
  length requests = length (gather connectors requests).1.
Proof. now rewrite gather_values, length_fmap. Qed.

Lemma main_raw_results connectors requests old :
  raw_results_json (main connectors (mkFiles (Some requests) old)).1 =
  Some (raw_results (tally requests (gather connectors requests).1)).
Proof.
  unfold main. simpl. destruct requests as [|request rest]; [reflexivity|].
  destruct (gather connectors (request :: rest)). reflexivity.
Qed.

Lemma main_summary connectors requests old :
  requests <> [] ->
  exists log,
    (main connectors (mkFiles (Some requests) old)).2 =
    log ++ summary (tally requests (gather connectors requests).1) requests.
Proof.
  intros Hne. unfold main. simpl. destruct requests as [|request rest]; [easy|].
  destruct (gather connectors (request :: rest)) as [results log1]. simpl.
  eexists (_ :: _ :: log1 ++ _ :: tally_log _ ++ [_]).
  simpl. do 2 f_equal. rewrite <- !app_assoc. simpl. rewrite <- !app_assoc.
  reflexivity.
Qed.

Lemma compaction_app (connectors : Call -> Result JSON)
    (l1 l2 : list (dict JSON)) :
  compaction connectors (l1 ++ l2)
  = compaction connectors l1 ++ compaction connectors l2.
Proof. unfold compaction. now rewrite fmap_app, List.filter_app. Qed.

Lemma main_compaction (connectors : Call -> Result JSON)
    (requests : list (dict JSON)) (old : option (list JSON)) :
  raw_results_json (main connectors (mkFiles (Some requests) old)).1
  = Some (compaction connectors requests).
Proof.
  rewrite main_raw_results.
  pose proof (tally_spec requests (gather connectors requests).1
                (gather_length connectors requests)) as (Hr & _).
  cbv zeta in Hr. rewrite Hr. unfold compaction. now rewrite gather_values.
Qed.

Lemma tally_counts (connectors : Call -> Result JSON)
    (requests : list (dict JSON)) :
  success_count (tally requests (gather connectors requests).1)
  = Z.of_nat (length (compaction connectors requests))
  /\ failure_count (tally requests (gather connectors requests).1)
     = (Z.of_nat (length requests)
        - Z.of_nat (length (compaction connectors requests)))%Z.
Proof.
  pose proof (tally_spec requests (gather connectors requests).1
                (gather_length connectors requests)) as (_ & Hs & Hf).
  cbv zeta in Hs, Hf. unfold compaction. rewrite <- gather_values.
  now split.
Qed.

Lemma compaction_all (connectors : Call -> Result JSON)
    (requests : list (dict JSON)) :
  (forall r, r ∈ requests -> truthy (outcome connectors r) = true) ->
  compaction connectors requests = outcome connectors <$> requests.
Proof.
  unfold compaction. induction requests as [|r l IH]; intros Hall;
    [reflexivity|].
  cbn [fmap list_fmap List.filter].
  rewrite (Hall r (list_elem_of_here _ _)). f_equal. apply IH.
  intros r' Hr'. apply Hall. now apply list_elem_of_further.
Qed.

Lemma compaction_short (connectors : Call -> Result JSON)
    (requests : list (dict JSON)) (r : dict JSON) :
  r ∈ requests -> truthy (outcome connectors r) = false ->
  length (compaction connectors requests) < length requests.
Proof.
  unfold compaction. intros Hin Hfalsy.
  induction requests as [|r' l IH]; [now apply elem_of_nil in Hin|].
  cbn [fmap list_fmap List.filter length].
  pose proof (List.filter_length_le truthy (outcome connectors <$> l)) as Hle.
  rewrite length_fmap in Hle.
  apply elem_of_cons in Hin as [<-|Hin].
  - rewrite Hfalsy. lia.
  - specialize (IH Hin). destruct (truthy (outcome connectors r')); simpl; lia.
Qed.

Lemma main_log_end (connectors : Call -> Result JSON)
    (requests : list (dict JSON)) (old : option (list JSON)) (tail : Log) :
  requests <> [] ->
  summary (tally requests (gather connectors requests).1) requests = tail ->
  exists log, (main connectors (mkFiles (Some requests) old)).2 = log ++ tail.
Proof. intros Hne <-. now apply main_summary. Qed.

(** Replacing falsy answers by faults changes no result as far as its
    truth goes, and so not the successes. *)
Lemma outcome_as_if_raised (connectors : Call -> Result JSON)
    (request : dict JSON) :
  outcome (as_if_raised connectors) request
  = if truthy (outcome connectors request) then outcome connectors request
    else JNull.
Proof.
  unfold outcome, as_if_raised.
  destruct (selected_call request) as [c|]; [|reflexivity].
  destruct (connectors c) as [details|e]; [|reflexivity].
  cbn [absent_on_raise]. now destruct (truthy details).
Qed.

Lemma compaction_as_if_raised (connectors : Call -> Result JSON)
    (requests : list (dict JSON)) :
  compaction (as_if_raised connectors) requests = compaction connectors requests.
Proof.
  unfold compaction. induction requests as [|r l IH]; [reflexivity|].
  cbn [fmap list_fmap List.filter]. rewrite IH, outcome_as_if_raised.
  destruct (truthy (outcome connectors r)) eqn:Hd; [now rewrite Hd|reflexivity].
Qed.

Lemma compaction_falsy (connectors : Call -> Result JSON)
    (before after : list (dict JSON)) (request : dict JSON) :
  truthy (outcome connectors request) = false ->
  compaction connectors (before ++ request :: after)
  = compaction connectors before ++ compaction connectors after.
Proof.
  intros Hfalsy. rewrite compaction_app. f_equal.
  unfold compaction. cbn [fmap list_fmap List.filter]. now rewrite Hfalsy.
Qed.

(** C2, as the code has it.  For every batch of content requests and
    whatever the connectors do, a fault raised while a request's
    connector is built or asked for details, and a website request
    without [source_url], resolve to an absent result in that request's
    own slot; the raw-results artifact holds exactly the truthy results
    in request order; [success_count] is their number and
    [failure_count] the number of the other requests.  A run over a
    non-empty batch ends by logging the counts: when every request
    succeeded, the record of success with the size of the batch as
    [success_count]; when some did not, the warning with
    [failure_count] followed by the record with [success_count] and the
    size of the batch.  A run over an empty batch writes an empty
    artifact and logs one record, which carries no count.  In particular
    a batch of five whose third request raises in its connector, the
    others succeeding, gives four records and ends by logging
    [failure_count = 1] and [success_count = 4] of 5. *)
Theorem retriever_isolates_failures
    (connectors : Call -> Result JSON) (requests : list (dict JSON))
    (old : option (list JSON)) :
  let run := main connectors (mkFiles (Some requests) old) in
  let t := tally requests (gather connectors requests).1 in
  let n := length requests in
  let kept := length (compaction connectors requests) in
  (forall request c e,
      selected_call request = Some c -> connectors c = Raise e ->
      (fetch_content_by_type connectors request).1 = JNull)
  /\ (forall request,
        eq_str (get_or_none "type" request) "website" = true ->
        truthy (get_or_none "source_url" request) = false ->
        (fetch_content_by_type connectors request).1 = JNull)
  /\ (gather connectors requests).1 = outcome connectors <$> requests
  /\ raw_results_json run.1 = Some (compaction connectors requests)
  /\ raw_results t = compaction connectors requests
  /\ success_count t = Z.of_nat kept
  /\ failure_count t = (Z.of_nat n - Z.of_nat kept)%Z
  /\ (requests <> [] -> kept = n -> last run.2 = Some (all_fetched n))
  /\ (kept < n -> exists log, run.2 = log ++ some_failed (n - kept) n)
  /\ (requests = [] ->
      raw_results_json run.1 = Some [] /\ run.2 = [nothing_to_fetch])
  /\ (forall r1 r2 r3 r4 r5 c e,
        requests = [r1; r2; r3; r4; r5] ->
        selected_call r3 = Some c -> connectors c = Raise e ->
        truthy (outcome connectors r1) = true ->
        truthy (outcome connectors r2) = true ->
        truthy (outcome connectors r4) = true ->
        truthy (outcome connectors r5) = true ->
        raw_results_json run.1 =
          Some [outcome connectors r1; outcome connectors r2;
                outcome connectors r4; outcome connectors r5]
        /\ success_count t = 4%Z /\ failure_count t = 1%Z
        /\ exists log, run.2 = log ++ some_failed 1 5).
Proof.
  intros run t n kept.
  destruct (tally_counts connectors requests) as [Hs Hf]. fold t in Hs, Hf.
  pose proof (tally_spec requests (gather connectors requests).1
                (gather_length connectors requests)) as (Hr & _).
  fold t in Hr. cbv zeta in Hr. rewrite gather_values in Hr.
  fold (compaction connectors requests) in Hr.
  pose proof (main_compaction connectors requests old) as Hfile. fold run in Hfile.
  assert (kept < n -> exists log, run.2 = log ++ some_failed (n - kept) n)
    as Hwarn.
  { intros Hlt. subst run. apply main_log_end.
    - intros ->. subst n kept. simpl in Hlt. lia.
    - unfold summary, some_failed. fold t. rewrite Hf, Hs. fold n kept.
      replace (0 <? _)%Z with true by (symmetry; apply Z.ltb_lt; lia).
      repeat f_equal; lia. }
  split; [|split; [|split; [|split; [|split; [|split; [|split;
    [|split; [|split; [|split]]]]]]]]].
  - intros request c e Hsel Hraise. rewrite fetch_value. unfold outcome.
    now rewrite Hsel, Hraise.
  - intros request Htype Hurl. rewrite fetch_value. unfold outcome, selected_call.
    rewrite Htype, Hurl.
    destruct (get_or_none "type" request) as [| | | |ty| |]; try discriminate.
    simpl in Htype. apply String.eqb_eq in Htype as ->. reflexivity.
  - apply gather_values.
  - exact Hfile.
  - exact Hr.
  - exact Hs.
  - exact Hf.
  - intros Hne Hall. subst run.
    destruct (main_log_end connectors requests old [all_fetched n] Hne)
      as (log & ->); [|apply last_snoc].
    unfold summary. fold t. rewrite Hf, Hs. fold n kept. rewrite Hall.
    replace (0 <? _)%Z with false by (symmetry; apply Z.ltb_ge; lia).
    reflexivity.
  - exact Hwarn.
  - intros ->. split; reflexivity.
  - intros r1 r2 r3 r4 r5 c e -> Hsel Hraise H1 H2 H4 H5.
    assert (compaction connectors [r1; r2; r3; r4; r5] =
            [outcome connectors r1; outcome connectors r2;
             outcome connectors r4; outcome connectors r5]) as Hfour.
    { unfold compaction. simpl. rewrite H1, H2, H4, H5.
      unfold outcome at 3. now rewrite Hsel, Hraise. }
    subst n kept. rewrite Hfour in *. rewrite Hfile, Hs, Hf.
    repeat split. apply Hwarn. simpl. lia.
Qed.

(** C2 as stated fails on the empty batch: the run writes an empty
    artifact and logs a single record, which reports no count. *)
Lemma empty_batch_reports_no_counts :
  main obliging (mkFiles (Some []) None)
  = (mkFiles (Some []) (Some []),
     [mkLog INFO "No content requests found. Nothing to fetch." []])
  /\ Forall (fun record => args record = [])
       (main obliging (mkFiles (Some []) None)).2.
Proof. split; [reflexivity|]. repeat constructor. Qed.

(** C10. A request whose connector answers without raising, with a
    falsy value, gets that value as its result and no fault is logged
    for it; in the loop of [main] such a result moves the tallies and the
    output exactly as an absent result does: it adds one to
    [failure_count] and nothing to the output.  So for every batch the
    two counts add up to the number of requests, the raw-results output,
    which is what [main] writes, is the truthy results in request order
    and has [success_count] records; a request that is answered with a
    falsy value is left out of it and counted as a failure; and the
    output and the counts are those of the run in which every falsy
    answer is a fault raised instead. *)
Theorem falsy_results_are_failures
    (connectors : Call -> Result JSON) (requests : list (dict JSON))
    (old : option (list JSON)) :
  let run := main connectors (mkFiles (Some requests) old) in
  let t := tally requests (gather connectors requests).1 in
  let run' := main (as_if_raised connectors) (mkFiles (Some requests) old) in
  let t' := tally requests (gather (as_if_raised connectors) requests).1 in
  (forall request c details,
      selected_call request = Some c -> connectors c = Ok details ->
      fetch_content_by_type connectors request
      = settle (get_or_none "type" request) (get_or_none "channel" request)
          (Ok details))
  /\ (forall (t0 : Tally) (request : dict JSON) (details : JSON),
      truthy details = false ->
      tally_step t0 (request, details) = tally_step t0 (request, JNull)
      /\ raw_results (tally_step t0 (request, details)) = raw_results t0
      /\ success_count (tally_step t0 (request, details)) = success_count t0
      /\ failure_count (tally_step t0 (request, details))
         = (failure_count t0 + 1)%Z)
  /\ (success_count t + failure_count t = Z.of_nat (length requests))%Z
  /\ Z.of_nat (length (raw_results t)) = success_count t
  /\ raw_results t = List.filter truthy (gather connectors requests).1
  /\ raw_results_json run.1 = Some (raw_results t)
  /\ raw_results t = compaction connectors requests
  /\ (forall before request after c details,
        requests = before ++ request :: after ->
        selected_call request = Some c -> connectors c = Ok details ->
        truthy details = false ->
        raw_results_json run.1
        = Some (compaction connectors before ++ compaction connectors after)
        /\ success_count t
           = (Z.of_nat (length (compaction connectors before))
              + Z.of_nat (length (compaction connectors after)))%Z
        /\ failure_count t
           = (Z.of_nat (length before)
              - Z.of_nat (length (compaction connectors before))
              + 1
              + (Z.of_nat (length after)
                 - Z.of_nat (length (compaction connectors after))))%Z)
  /\ (raw_results_json run'.1 = raw_results_json run.1
      /\ success_count t' = success_count t
      /\ failure_count t' = failure_count t).
Proof.
  intros run t run' t'.
  pose proof (tally_spec requests (gather connectors requests).1
                (gather_length connectors requests)) as (Hr & Hs & Hf).
  fold t in Hr, Hs, Hf.
  destruct (tally_counts connectors requests) as [Hs' Hf']. fold t in Hs', Hf'.
  pose proof (main_compaction connectors requests old) as Hfile. fold run in Hfile.
  assert (raw_results t = compaction connectors requests) as Hcompact.
  { rewrite Hr. unfold compaction. now rewrite gather_values. }
  split; [|split; [|split; [|split; [|split; [|split; [|split; [|split]]]]]]].
  - intros request c details Hsel Hanswer.
    unfold selected_call in Hsel. unfold fetch_content_by_type, settle.
    repeat lazymatch type of Hsel with
           | context [if eq_str ?v ?s then _ else _] => destruct (eq_str v s)
           | context [if truthy ?v then _ else _] => destruct (truthy v); simpl
           end;
      try discriminate Hsel; injection Hsel as <-; now rewrite Hanswer.
  - intros t0 request details Hfalsy. unfold tally_step. rewrite Hfalsy. simpl.
    repeat split.
  - rewrite Hs, Hf. lia.
  - now rewrite Hs, Hr.
  - exact Hr.
  - subst run. apply main_raw_results.
  - exact Hcompact.
  - intros before request after c details -> Hsel Hanswer Hfalsy.
    assert (truthy (outcome connectors request) = false) as Hout.
    { unfold outcome. now rewrite Hsel, Hanswer. }
    rewrite Hfile, Hs', Hf', (compaction_falsy _ _ _ _ Hout).
    rewrite !length_app. cbn [length]. repeat split; lia.
  - subst run' t'.
    destruct (tally_counts (as_if_raised connectors) requests) as [Hs2 Hf2].
    rewrite main_compaction, Hfile, Hs2, Hf2, Hs', Hf'.
    now rewrite compaction_as_if_raised.
Qed.

(** C8, as the code has it.  A content request whose [type] is
    ["youtube"], ["podcast"] or ["bilibili"], or is ["website"] with a
    [source_url], is handed to the connector of that type, built from
    the request's [channel] (and [uid], [source_url]), and the request's
    result is that connector's; the types the code dispatches on are
    these four, so a request of type ["video"] or ["short_video"]
    resolves to the unsupported-content-type result. *)
Theorem retriever_dispatch_by_type
    (connectors : Call -> Result JSON) (request : dict JSON) :
  let content_type := get_or_none "type" request in
  let channel := get_or_none "channel" request in
  let source_url := get_or_none "source_url" request in
  let uid := get_or_none "uid" request in
  (content_type = JStr "youtube" ->
     fetch_content_by_type connectors request
     = settle content_type channel (connectors (YoutubeConnector channel)))
  /\ (content_type = JStr "podcast" ->
     fetch_content_by_type connectors request
     = settle content_type channel (connectors (PodcastConnector channel)))
  /\ (content_type = JStr "bilibili" ->
     fetch_content_by_type connectors request
     = settle content_type channel (connectors (BilibiliConnector channel uid)))
  /\ (content_type = JStr "website" -> truthy source_url = true ->
     fetch_content_by_type connectors request
     = settle content_type channel
         (connectors (WebsiteConnector channel source_url)))
  /\ (content_type = JStr "video" \/ content_type = JStr "short_video" ->
     fetch_content_by_type connectors request = unsupported content_type channel).
Proof.
  intros content_type channel source_url uid.
  unfold fetch_content_by_type, settle, unsupported.
  fold content_type channel source_url uid.
  repeat split.
  - intros ->. simpl. now destruct (connectors _) as [v|[[] msg]].
  - intros ->. simpl. now destruct (connectors _) as [v|[[] msg]].
  - intros ->. simpl. now destruct (connectors _) as [v|[[] msg]].
  - intros -> ->. simpl. now destruct (connectors _) as [v|[[] msg]].
  - intros [-> | ->]; reflexivity.
Qed.

(** C8 as stated fails: a request of the declared type [video] reaches no
    connector, although every connector would have answered. *)
Lemma video_request_unsupported :
  fetch_content_by_type obliging video_request =
  (JNull,
   [mkLog INFO "Fetching content for {content_type}:{channel}"
      [AVal (JStr "video"); AVal (JStr "channel-a")];
    mkLog ERROR "Unsupported content type: {content_type}" [AVal (JStr "video")]]).
Proof. reflexivity. Qed.

Lemma retriever_dispatch_by_type_witness :
  fetch_content_by_type obliging youtube_request
  = settle (JStr "youtube") (JStr "channel-a")
      (obliging (YoutubeConnector (JStr "channel-a")))
  /\ fetch_content_by_type obliging website_request
     = settle (JStr "website") (JStr "blog")
         (obliging (WebsiteConnector (JStr "blog")
                      (JStr "https://example.org/feed")))
  /\ fetch_content_by_type obliging video_request
     = unsupported (JStr "video") (JStr "channel-a").
Proof.
  split; [|split].
  - exact (proj1 (retriever_dispatch_by_type obliging youtube_request) eq_refl).
  - exact (proj1 (proj2 (proj2 (proj2
             (retriever_dispatch_by_type obliging website_request))))
             eq_refl eq_refl).
  - exact (proj2 (proj2 (proj2 (proj2
             (retriever_dispatch_by_type obliging video_request))))
             (or_introl eq_refl)).
Defined.

Lemma retriever_isolates_failures_witness :
  raw_results_json (main third_raises (mkFiles (Some five_requests) None)).1
  = Some [JDict [("channel", JStr "one")]; JDict [("channel", JStr "two")];
          JDict [("channel", JStr "four")]; JDict [("channel", JStr "five")]]
  /\ success_count (tally five_requests (gather third_raises five_requests).1) = 4%Z
  /\ failure_count (tally five_requests (gather third_raises five_requests).1) = 1%Z
  /\ exists log,
       (main third_raises (mkFiles (Some five_requests) None)).2
       = log ++ some_failed 1 5.
Proof.
  pose proof (retriever_isolates_failures third_raises five_requests None)
    as (_ & _ & _ & _ & _ & _ & _ & _ & _ & _ & Hfive).
  exact (Hfive _ _ _ _ _ _ _ eq_refl eq_refl eq_refl eq_refl eq_refl eq_refl eq_refl).
Defined.

Lemma falsy_results_are_failures_witness :
  fetch_content_by_type third_empty
    [("type", JStr "bilibili"); ("channel", JStr "three"); ("uid", JStr "33")]
  = (JDict [],
     [mkLog INFO "Fetching content for {content_type}:{channel}"
        [AVal (JStr "bilibili"); AVal (JStr "three")]])
  /\ raw_results_json (main third_empty (mkFiles (Some five_requests) None)).1
     = Some [JDict [("channel", JStr "one")]; JDict [("channel", JStr "two")];
             JDict [("channel", JStr "four")]; JDict [("channel", JStr "five")]]
  /\ success_count (tally five_requests (gather third_empty five_requests).1)
     = 4%Z
  /\ failure_count (tally five_requests (gather third_empty five_requests).1)
     = 1%Z
  /\ tally_step (mkTally [] 0 0 []) (youtube_request, JDict [])
     = tally_step (mkTally [] 0 0 []) (youtube_request, JNull).
Proof.
  pose proof (falsy_results_are_failures third_empty five_requests None)
    as (Hslot & Hstep & _ & _ & _ & _ & _ & Hleft & _).
  split; [|split; [|split; [|split]]].
  - exact (Hslot [("type", JStr "bilibili"); ("channel", JStr "three");
                  ("uid", JStr "33")]
             (BilibiliConnector (JStr "three") (JStr "33")) (JDict [])
             eq_refl eq_refl).
  - exact (proj1 (Hleft
             [ [("type", JStr "youtube"); ("channel", JStr "one")];
               [("type", JStr "podcast"); ("channel", JStr "two")] ]
             [("type", JStr "bilibili"); ("channel", JStr "three");
              ("uid", JStr "33")]
             [ [("type", JStr "website"); ("channel", JStr "four");
                ("source_url", JStr "https://example.org/four")];
               [("type", JStr "youtube"); ("channel", JStr "five")] ]
             (BilibiliConnector (JStr "three") (JStr "33")) (JDict [])
             eq_refl eq_refl eq_refl eq_refl)).
  - exact (proj1 (proj2 (Hleft
             [ [("type", JStr "youtube"); ("channel", JStr "one")];
               [("type", JStr "podcast"); ("channel", JStr "two")] ]
             [("type", JStr "bilibili"); ("channel", JStr "three");
              ("uid", JStr "33")]
             [ [("type", JStr "website"); ("channel", JStr "four");
                ("source_url", JStr "https://example.org/four")];
               [("type", JStr "youtube"); ("channel", JStr "five")] ]
             (BilibiliConnector (JStr "three") (JStr "33")) (JDict [])
             eq_refl eq_refl eq_refl eq_refl))).
  - exact (proj2 (proj2 (Hleft
             [ [("type", JStr "youtube"); ("channel", JStr "one")];
               [("type", JStr "podcast"); ("channel", JStr "two")] ]
             [("type", JStr "bilibili"); ("channel", JStr "three");
              ("uid", JStr "33")]
             [ [("type", JStr "website"); ("channel", JStr "four");
                ("source_url", JStr "https://example.org/four")];
               [("type", JStr "youtube"); ("channel", JStr "five")] ]
             (BilibiliConnector (JStr "three") (JStr "33")) (JDict [])
             eq_refl eq_refl eq_refl eq_refl))).
  - exact (proj1 (Hstep (mkTally [] 0 0 []) youtube_request (JDict []) eq_refl)).
Defined.

(** *** Requests that reach no connector *)

Lemma eq_str_false (v : JSON) (s : string) : v <> JStr s -> eq_str v s = false.
Proof.
  destruct v as [| | | |s'| |]; simpl; try reflexivity.
  intros Hne. apply String.eqb_neq. congruence.
Qed.

(** X16. A request whose type is none of ["youtube"], ["podcast"],
    ["bilibili"], ["website"], be it another string, no string at all or
    missing, resolves to the unsupported-content-type result whatever the
    connectors are. *)
Theorem other_types_are_unsupported
    (connectors : Call -> Result JSON) (request : dict JSON) :
  let content_type := get_or_none "type" request in
  let channel := get_or_none "channel" request in
  content_type <> JStr "youtube" -> content_type <> JStr "podcast" ->
  content_type <> JStr "bilibili" -> content_type <> JStr "website" ->
  fetch_content_by_type connectors request = unsupported content_type channel.
Proof.
  intros content_type channel Hy Hp Hb Hw. unfold fetch_content_by_type.
  fold content_type channel.
  now rewrite (eq_str_false _ _ Hy), (eq_str_false _ _ Hp),
    (eq_str_false _ _ Hb), (eq_str_false _ _ Hw).
Qed.

Lemma other_types_are_unsupported_witness :
  fetch_content_by_type obliging untyped_request
  = unsupported JNull (JStr "channel-a").
Proof.
  exact (other_types_are_unsupported obliging untyped_request
           ltac:(discriminate) ltac:(discriminate) ltac:(discriminate)
           ltac:(discriminate)).
Defined.

(** X17. What a request returns and logs depends on the connectors only
    through the call selected for it: two families of connectors that
    answer that call alike give the same result, and when no call is
    selected every family gives the same result. *)
Theorem result_depends_on_selected_call_only
    (connectors connectors' : Call -> Result JSON) (request : dict JSON) :
  (forall c, selected_call request = Some c -> connectors c = connectors' c) ->
  fetch_content_by_type connectors request
  = fetch_content_by_type connectors' request.
Proof.
  unfold selected_call, fetch_content_by_type. intros Hsame.
  repeat lazymatch goal with
         | H : context [if eq_str ?v ?s then _ else _] |- _ =>
             destruct (eq_str v s)
         | H : context [if truthy ?v then _ else _] |- _ =>
             destruct (truthy v); simpl
         end;
    try reflexivity; now rewrite (Hsame _ eq_refl).
Qed.

Lemma result_depends_on_selected_call_only_witness :
  fetch_content_by_type obliging video_request
  = fetch_content_by_type third_raises video_request.
Proof.
  apply (result_depends_on_selected_call_only obliging third_raises
           video_request).
  intros c Hc. discriminate Hc.
Defined.

(** *** How a run ends *)

(** X18. When every request of a non-empty batch yields a truthy result
    the raw-results artifact holds one record per request, in request
    order, and the run ends on the record of success with the count of
    the whole batch. *)
Theorem all_successes_end_in_success
    (connectors : Call -> Result JSON) (requests : list (dict JSON))
    (old : option (list JSON)) :
  requests <> [] ->
  (forall r, r ∈ requests -> truthy (outcome connectors r) = true) ->
  let run := main connectors (mkFiles (Some requests) old) in
  raw_results_json run.1 = Some (outcome connectors <$> requests)
  /\ last run.2 = Some (all_fetched (length requests)).
Proof.
  intros Hne Hall run. subst run.
  destruct (tally_counts connectors requests) as [Hs Hf].
  rewrite (compaction_all connectors requests Hall), length_fmap in Hs, Hf.
  split.
  - now rewrite main_compaction, compaction_all.
  - destruct (main_log_end connectors requests old
                [all_fetched (length requests)] Hne) as (log & ->).
    + unfold summary. rewrite Hf, Hs.
      replace (0 <? _)%Z with false by (symmetry; apply Z.ltb_ge; lia).
      reflexivity.
    + apply last_snoc.
Qed.

(** X19. When some request of the batch yields a falsy result the
    raw-results artifact is shorter than the batch and the run ends on
    the warning that counts the failures followed by the record of what
    was fetched. *)
Theorem a_failure_ends_in_warning
    (connectors : Call -> Result JSON) (requests : list (dict JSON))
    (old : option (list JSON)) (r : dict JSON) :
  r ∈ requests -> truthy (outcome connectors r) = false ->
  let run := main connectors (mkFiles (Some requests) old) in
  let failed := length requests - length (compaction connectors requests) in
  0 < failed
  /\ raw_results_json run.1 = Some (compaction connectors requests)
  /\ exists log, run.2 = log ++ some_failed failed (length requests).
Proof.
  intros Hin Hfalsy run failed. subst run failed.
  pose proof (compaction_short connectors requests r Hin Hfalsy) as Hshort.
  destruct (tally_counts connectors requests) as [Hs Hf].
  split; [lia|]. split.
  - apply main_compaction.
  - apply main_log_end.
    + intros ->. now apply elem_of_nil in Hin.
    + unfold summary, some_failed. rewrite Hf, Hs.
      replace (0 <? _)%Z with true by (symmetry; apply Z.ltb_lt; lia).
      repeat f_equal; lia.
Qed.

Lemma all_successes_end_in_success_witness :
  raw_results_json (main obliging (mkFiles (Some [youtube_request]) None)).1
  = Some [JDict [("title", JStr "an update")]]
  /\ last (main obliging (mkFiles (Some [youtube_request]) None)).2
     = Some (all_fetched 1).
Proof.
  apply (all_successes_end_in_success obliging [youtube_request] None).
  - discriminate.
  - intros r Hr. apply list_elem_of_singleton in Hr as ->. reflexivity.
Defined.

Lemma a_failure_ends_in_warning_witness :
  exists log,
    (main third_raises (mkFiles (Some five_requests) None)).2
    = log ++ some_failed 1 5.
Proof.
  destruct (a_failure_ends_in_warning third_raises five_requests None
              [("type", JStr "bilibili"); ("channel", JStr "three");
               ("uid", JStr "33")]) as (_ & _ & H).
  - do 2 apply list_elem_of_further. apply list_elem_of_here.
  - reflexivity.
  - exact H.
Defined.

(** X20. Batches compose: the artifact written for two batches put end
    to end is the artifact of the first followed by the artifact of the
    second, so that no request changes the result of another. *)
Theorem batches_compose
    (connectors : Call -> Result JSON) (requests1 requests2 : list (dict JSON))
    (old : option (list JSON)) :
  exists raw1 raw2,
    raw_results_json (main connectors (mkFiles (Some requests1) old)).1
      = Some raw1
    /\ raw_results_json (main connectors (mkFiles (Some requests2) old)).1
       = Some raw2
    /\ raw_results_json
         (main connectors (mkFiles (Some (requests1 ++ requests2)) old)).1
       = Some (raw1 ++ raw2).
Proof.
  exists (compaction connectors requests1), (compaction connectors requests2).
  rewrite !main_compaction, compaction_app. now repeat split.
Qed.

End FetchSpec.

(** ** The Classifier *)

Module CurateSpec.
Import Curate CurateNotions.

(** *** Durations *)

Lemma space_not_decimal c : char_isspace c = true -> is_decimal c = false.
Proof.
  intros Hs. apply not_true_is_false. intros Hd. revert Hs Hd.
  unfold char_isspace, int_space, is_decimal.
  rewrite ?orb_true_iff, ?andb_true_iff, ?N.leb_le, ?N.eqb_eq. lia.
Qed.

Lemma space_not_digit c : char_isspace c = true -> char_isdigit c = false.
Proof.
  intros Hs. apply not_true_is_false. intros Hd. revert Hs Hd.
  unfold char_isspace, int_space, char_isdigit, is_decimal.
  rewrite ?orb_true_iff, ?andb_true_iff, ?N.leb_le, ?N.eqb_eq. lia.
Qed.

Lemma search_unit_blank u s :
  str_forall char_isspace s = true -> search_unit u s = None.
Proof.
  induction s as [|c s IH]; simpl; [reflexivity|].
  intros [Hc Hs]%andb_true_iff. rewrite (space_not_decimal c Hc). now apply IH.
Qed.

Lemma isdigit_blank s : str_forall char_isspace s = true -> isdigit s = false.
Proof.
  destruct s as [|c s]; simpl; [reflexivity|].
  intros [Hc _]%andb_true_iff. now rewrite (space_not_digit c Hc).
Qed.

(** C9, as the code has it.  [parse_duration_to_seconds] maps ["1h 30m"]
    to 5400, ["45s"] to 45, ["90"] to 90 and ["2m 15s"] to 135 and an
    integer to itself; a string that has a character other than white
    space, no hour, minute or second group, no reading as an integer and
    is not made of digit characters only gives 0 with the warning logged;
    a string that is empty or white space only gives 0 and no warning. *)
Theorem parse_duration_cases :
  parse_duration_to_seconds (JStr "1h 30m") = (Ok 5400%Z, [])
  /\ parse_duration_to_seconds (JStr "45s") = (Ok 45%Z, [])
  /\ parse_duration_to_seconds (JStr "90") = (Ok 90%Z, [])
  /\ parse_duration_to_seconds (JStr "2m 15s") = (Ok 135%Z, [])
  /\ (forall z, parse_duration_to_seconds (JInt z) = (Ok z, []))
  /\ (forall s,
        search_unit "h" s = None -> search_unit "m" s = None ->
        search_unit "s" s = None -> int_of_str s = None ->
        isdigit s = false -> strip_nonempty s = true ->
        parse_duration_to_seconds (JStr s) = (Ok 0%Z, [could_not_parse s]))
  /\ (forall s,
        strip_nonempty s = false ->
        parse_duration_to_seconds (JStr s) = (Ok 0%Z, [])).
Proof.
  repeat split.
  - intros s Hh Hm Hs Hint Hdigit Hstrip.
    unfold parse_duration_to_seconds, unit_seconds.
    rewrite Hdigit, Hh, Hm, Hs. simpl. rewrite Hstrip, Hint. reflexivity.
  - intros s Hblank. unfold strip_nonempty in Hblank.
    apply negb_false_iff in Hblank.
    unfold parse_duration_to_seconds, unit_seconds.
    rewrite (isdigit_blank s Hblank), !(search_unit_blank _ s Hblank). simpl.
    unfold strip_nonempty. now rewrite Hblank.
Qed.

(** C9 as stated fails: the empty string has no unit group and no
    reading as an integer, and gives 0 without any warning. *)
Lemma empty_duration_no_warning :
  search_unit "h" "" = None /\ search_unit "m" "" = None
  /\ search_unit "s" "" = None /\ int_of_str "" = None
  /\ parse_duration_to_seconds (JStr "") = (Ok 0%Z, [])
  /\ parse_duration_to_seconds (JStr "") <> (Ok 0%Z, [could_not_parse ""]).
Proof. repeat split. discriminate. Qed.

(** Outside the cases above: on a string of digit characters that are
    not decimal digits the early [int] is reached and raises. *)
Lemma superscript_duration_raises :
  isdigit superscript_two = true
  /\ parse_duration_to_seconds (JStr superscript_two) =
     (Raise (value_error_int superscript_two), []).
Proof. split; reflexivity. Qed.

Lemma parse_duration_cases_witness :
  parse_duration_to_seconds (JStr "soon") = (Ok 0%Z, [could_not_parse "soon"])
  /\ parse_duration_to_seconds (JStr "  ") = (Ok 0%Z, []).
Proof.
  pose proof parse_duration_cases as (_ & _ & _ & _ & _ & Hwarn & Hblank).
  split.
  - exact (Hwarn "soon" eq_refl eq_refl eq_refl eq_refl eq_refl eq_refl).
  - exact (Hblank "  " eq_refl).
Defined.

(** *** Verdicts *)

(** Printing an integer raises nothing but a [ValueError]. *)
Lemma str_of_int_raises (z : Z) (e : Exc) :
  str_of_int z = Raise e -> exc_class e = ValueError.
Proof.
  unfold str_of_int.
  destruct (int_max_str_digits <? _)%N; [now intros [= <-] | discriminate].
Qed.

(** What one verdict of a bucket does, case by case, when its [idx] is
    an integer or a string; the warning of an index out of range prints
    the index. *)
Lemma process_item_cases (bucket : string) (processed_data : list (dict JSON))
    (verdict : dict JSON) (idx : JSON) (index : Z) :
  dict_get "idx" verdict = Some idx ->
  int idx = Ok index ->
  let in_range :=
    (0 <=? index)%Z && (index <? Z.of_nat (length processed_data))%Z in
  (forall numeral,
     in_range = false -> str_of_int index = Ok numeral ->
     process_item bucket processed_data (JDict verdict) =
     (Ok None, [mkLog WARNING "Index {index} out of range for {bucket}"
                  [AInt index; AStr bucket]]))
  /\ (in_range = true -> dict_get "reason" verdict = None ->
     process_item bucket processed_data (JDict verdict) =
     (Ok None, [mkLog WARNING "Error processing {bucket} item: {e}"
                  [AStr bucket; AExc (mkExc KeyError "reason")]]))
  /\ (forall reason record,
        in_range = true -> dict_get "reason" verdict = Some reason ->
        nth_error processed_data (Z.to_nat index) = Some record ->
        process_item bucket processed_data (JDict verdict) =
        (Ok (Some (dict_set "reason" reason record)), [])).
Proof.
  intros Hidx Hint in_range. subst in_range.
  unfold process_item, subscript. rewrite Hidx. simpl. rewrite Hint. simpl.
  split; [|split].
  - intros numeral -> ->. reflexivity.
  - intros Hin Hreason. rewrite Hin.
    apply andb_true_iff in Hin as [Hle%Z.leb_le Hlt%Z.ltb_lt].
    destruct (nth_error processed_data (Z.to_nat index)) as [record|] eqn:Hnth.
    + now rewrite Hreason.
    + apply nth_error_None in Hnth. lia.
  - intros reason record -> Hreason ->. now rewrite Hreason.
Qed.

Lemma process_item_not_a_number (bucket : string)
    (processed_data : list (dict JSON)) (verdict : dict JSON) (s : string) :
  dict_get "idx" verdict = Some (JStr s) -> int_of_str s = None ->
  process_item bucket processed_data (JDict verdict) =
  (Ok None, [mkLog WARNING "Error processing {bucket} item: {e}"
               [AStr bucket; AExc (mkExc ValueError s)]]).
Proof.
  intros Hidx Hint. unfold process_item, subscript. rewrite Hidx. simpl.
  now rewrite Hint.
Qed.

(** On such verdicts the loop body never raises, whatever the index and
    whether or not the reason is there. *)
Lemma process_item_orderly (bucket : string) (processed_data : list (dict JSON))
    (item : JSON) :
  orderly item ->
  exists r log, process_item bucket processed_data item = (Ok r, log).
Proof.
  intros (verdict & -> & Hconv). unfold process_item, subscript.
  destruct (dict_get "idx" verdict) as [idx|] eqn:Hidx; simpl; [|eauto].
  destruct (int idx) as [index|e] eqn:Hint; simpl.
  - destruct ((0 <=? index)%Z && (index <? Z.of_nat (length processed_data))%Z)
      eqn:Hin.
    + apply andb_true_iff in Hin as [Hle%Z.leb_le Hlt%Z.ltb_lt].
      destruct (nth_error processed_data (Z.to_nat index)) eqn:Hnth; simpl.
      * destruct (dict_get "reason" verdict); simpl; eauto.
      * apply nth_error_None in Hnth. lia.
    + destruct (str_of_int index) as [numeral|e] eqn:Hprint; simpl; [eauto|].
      rewrite (str_of_int_raises _ _ Hprint). simpl. eauto.
  - rewrite (Hconv idx eq_refl e Hint). simpl. eauto.
Qed.

Lemma process_items_orderly (bucket : string) (processed_data : list (dict JSON))
    (items : list JSON) :
  Forall orderly items ->
  forall acc, exists out log,
    process_items bucket processed_data items acc = (Ok out, log).
Proof.
  induction 1 as [|item items Hitem _ IH]; intros acc; simpl; [eauto|].
  destruct (process_item_orderly bucket processed_data item Hitem)
    as (r & log & ->). simpl.
  destruct (IH (match r with Some c => acc ++ [c] | None => acc end))
    as (out & log' & ->).
  eauto.
Qed.

(** C7 fails on the code: a verdict whose [idx] is [null] is not dropped;
    [int] raises a [TypeError], which the handler of the loop does not
    catch, and the whole call raises, the sound sibling verdict
    unprocessed. *)
Theorem null_idx_verdict_raises :
  caught_in_bucket TypeError = false
  /\ parse_curation_response null_idx_response one_record =
     (Raise (mkExc TypeError
        "int() argument must be a string, a bytes-like object or a real number"),
      []).
Proof. split; reflexivity. Qed.

(** *** The run on a response that is not JSON *)

Section NotJSON.

Variable load_curator_config : Result (string * string).
Variable json_dumps : list (dict JSON) -> string.
Variable api_text_completion : string -> string -> string -> Result string.
Variable json_loads : string -> option JSON.

Local Abbreviation get_llm_curation_of :=
  (get_llm_curation load_curator_config json_dumps api_text_completion
     json_loads).
Local Abbreviation curate_content_of :=
  (curate_content load_curator_config json_dumps api_text_completion
     json_loads).
Local Abbreviation main_of :=
  (main load_curator_config json_dumps api_text_completion json_loads).


End NotJSON.


(** *** More on durations *)

Lemma int_digits_decimal (s : string) : forall acc : Z,
  str_forall is_decimal s = true ->
  exists z, int_digits acc s = Some z /\ (0 <= acc -> 0 <= z)%Z.
Proof.
  induction s as [|c s IH]; intros acc; simpl.
  - intros _. exists acc. now split.
  - intros [Hc Hs]%andb_true_iff. rewrite Hc.
    destruct (IH (10 * acc + digit_val c)%Z Hs) as (z & Hz & Hpos).
    exists z. split; [exact Hz|]. intros Hacc. apply Hpos.
    unfold digit_val. unfold is_decimal in Hc.
    apply andb_true_iff in Hc as [Hlo%N.leb_le _]. lia.
Qed.

Lemma decimal_not_space (c : ascii) : is_decimal c = true -> int_space c = false.
Proof.
  intros Hd. apply not_true_is_false. intros Hs. revert Hs Hd.
  unfold int_space, is_decimal.
  rewrite ?orb_true_iff, ?andb_true_iff, ?N.leb_le, ?N.eqb_eq. lia.
Qed.

Lemma int_of_str_within (s : string) :
  (count_decimal s <= int_max_str_digits)%N -> int_of_str s = int_literal s.
Proof.
  intros Hcount. unfold int_of_str.
  now rewrite (proj2 (N.ltb_ge _ _) Hcount).
Qed.

Lemma int_of_str_beyond (s : string) :
  (int_max_str_digits < count_decimal s)%N -> int_of_str s = None.
Proof.
  intros Hcount. unfold int_of_str.
  now rewrite (proj2 (N.ltb_lt _ _) Hcount).
Qed.

Lemma int_literal_decimal (c : ascii) (s : string) :
  str_forall is_decimal (String c s) = true ->
  exists z, int_literal (String c s) = Some z /\ (0 <= z)%Z.
Proof.
  simpl. intros [Hc Hs]%andb_true_iff.
  destruct (int_digits_decimal s (digit_val c) Hs) as (z & Hz & Hpos).
  exists z. split.
  - unfold int_literal. cbn [drop_while]. rewrite (decimal_not_space c Hc).
    assert (int_unsigned (String c s) = Some z) as Hu
      by (simpl; now rewrite Hc).
    destruct c as [[] [] [] [] [] [] [] []]; try discriminate Hc; exact Hu.
  - apply Hpos. unfold digit_val. unfold is_decimal in Hc.
    apply andb_true_iff in Hc as [Hlo%N.leb_le _]. lia.
Qed.

Lemma int_of_decimal (c : ascii) (s : string) :
  str_forall is_decimal (String c s) = true ->
  (count_decimal (String c s) <= int_max_str_digits)%N ->
  exists z, int_of_str (String c s) = Some z /\ (0 <= z)%Z.
Proof.
  intros Hdec Hcount. rewrite (int_of_str_within _ Hcount).
  now apply int_literal_decimal.
Qed.

Lemma span_digits_run (s : string) :
  str_forall is_decimal (span_digits s).1 = true.
Proof.
  induction s as [|c s IH]; simpl; [reflexivity|].
  destruct (is_decimal c) eqn:Hc; [|reflexivity].
  destruct (span_digits s) as [run rest]. simpl in *. now rewrite Hc.
Qed.

Lemma span_digits_count (s : string) :
  (count_decimal (span_digits s).1 <= count_decimal s)%N.
Proof.
  induction s as [|c s IH]; simpl; [lia|].
  destruct (is_decimal c) eqn:Hc; [|simpl; lia].
  destruct (span_digits s) as [run rest]. simpl in *. rewrite Hc. lia.
Qed.

Lemma search_unit_group (u : ascii) (s g : string) :
  search_unit u s = Some g ->
  exists c g', g = String c g' /\ str_forall is_decimal g = true.
Proof.
  induction s as [|c s IH]; [discriminate|].
  cbn [search_unit]. pose proof (span_digits_run (String c s)) as Hrun.
  destruct (span_digits (String c s)) as [run rest]. cbn [fst] in Hrun.
  destruct run as [|d run]; [exact IH|].
  destruct rest as [|c' rest]; [exact IH|].
  destruct (Ascii.eqb c' u); [|exact IH].
  intros [= <-]. eauto.
Qed.

(** A group is a piece of the string: it has no more digits. *)
Lemma search_unit_count (u : ascii) (s g : string) :
  search_unit u s = Some g -> (count_decimal g <= count_decimal s)%N.
Proof.
  induction s as [|c s IH]; [discriminate|].
  assert (count_decimal s <= count_decimal (String c s))%N as Hstep
    by (simpl; destruct (is_decimal c); lia).
  cbn [search_unit]. pose proof (span_digits_count (String c s)) as Hrun.
  destruct (span_digits (String c s)) as [run rest]. cbn [fst] in Hrun.
  assert (search_unit u s = Some g -> (count_decimal g <= count_decimal (String c s))%N)
    as Hrest by (intros H; specialize (IH H); lia).
  destruct run as [|d run]; [exact Hrest|].
  destruct rest as [|c' rest]; [exact Hrest|].
  destruct (Ascii.eqb c' u); [|exact Hrest].
  now intros [= <-].
Qed.

Lemma unit_seconds_ok (u : ascii) (factor : Z) (s : string) :
  (count_decimal s <= int_max_str_digits)%N ->
  exists z, unit_seconds u factor s = (Ok z, []).
Proof.
  intros Hcount.
  unfold unit_seconds. destruct (search_unit u s) as [g|] eqn:Hg; [|eauto].
  pose proof (search_unit_count u s g Hg) as Hgroup.
  destruct (search_unit_group u s g Hg) as (c & g' & -> & Hdec).
  destruct (int_of_decimal c g' Hdec ltac:(lia)) as (z & Hz & _).
  cbn [int lift bind]. rewrite Hz. cbn. eauto.
Qed.

(** A unit group logs nothing, and what it raises is the [ValueError] of
    [int]. *)
Lemma unit_seconds_quiet (u : ascii) (factor : Z) (s : string) :
  (exists z, unit_seconds u factor s = (Ok z, []))
  \/ (exists g, search_unit u s = Some g /\ int_of_str g = None
                /\ unit_seconds u factor s = (Raise (value_error_int g), [])).
Proof.
  unfold unit_seconds. destruct (search_unit u s) as [g|]; [|left; eauto].
  cbn [int lift bind]. destruct (int_of_str g) as [z|] eqn:Hz; cbn.
  - left. eauto.
  - right. exists g. now repeat split.
Qed.

(** On a string the function returns, having logged nothing or the one
    warning, or raises the [ValueError] of an [int], having logged
    nothing. *)
Lemma parse_duration_string_cases (duration_str : string) :
  (exists seconds log,
     parse_duration_to_seconds (JStr duration_str) = (Ok seconds, log)
     /\ (log = [] \/ (seconds = 0%Z /\ log = [could_not_parse duration_str])))
  \/ (exists e,
        parse_duration_to_seconds (JStr duration_str) = (Raise e, [])
        /\ exc_class e = ValueError).
Proof.
  unfold parse_duration_to_seconds. destruct (isdigit duration_str).
  - cbn [int lift]. destruct (int_of_str duration_str); [left|right]; eauto.
  - destruct (unit_seconds_quiet "h" 3600 duration_str)
      as [(h & ->)|(g & _ & _ & ->)]; [|right; eauto].
    destruct (unit_seconds_quiet "m" 60 duration_str)
      as [(m & ->)|(g & _ & _ & ->)]; [|right; eauto].
    destruct (unit_seconds_quiet "s" 1 duration_str)
      as [(s & ->)|(g & _ & _ & ->)]; [|right; eauto].
    left. cbn [bind app].
    destruct ((0 + h + m + s =? 0)%Z && strip_nonempty duration_str).
    + cbn [int lift]. destruct (int_of_str duration_str) as [z|]; cbn; eauto.
      exists 0%Z, [could_not_parse duration_str]. split; [reflexivity|].
      right. now split.
    + cbn. eauto.
Qed.

(** X21. What [parse_duration_to_seconds] does on a string.  It raises
    nothing but a [ValueError], and then has logged nothing.  On a string
    with no more decimal digits than [int] accepts, and which is not a
    string of digit characters that are not all decimal, it returns a
    number, having logged nothing or, with the number 0, the warning that
    the string could not be parsed.  On a string of digit characters with
    more decimal digits than [int] accepts it raises, and so it does when
    the group of the hours has more digits than that. *)
Theorem parse_duration_returns_on_strings (duration_str : string) :
  (forall e log,
      parse_duration_to_seconds (JStr duration_str) = (Raise e, log) ->
      exc_class e = ValueError /\ log = [])
  /\ ((count_decimal duration_str <= int_max_str_digits)%N ->
      (isdigit duration_str = true ->
       str_forall is_decimal duration_str = true) ->
      exists seconds log,
        parse_duration_to_seconds (JStr duration_str) = (Ok seconds, log)
        /\ (log = []
            \/ (seconds = 0%Z /\ log = [could_not_parse duration_str])))
  /\ (isdigit duration_str = true ->
      (int_max_str_digits < count_decimal duration_str)%N ->
      parse_duration_to_seconds (JStr duration_str)
      = (Raise (value_error_int duration_str), []))
  /\ (forall group,
        isdigit duration_str = false ->
        search_unit "h" duration_str = Some group ->
        (int_max_str_digits < count_decimal group)%N ->
        parse_duration_to_seconds (JStr duration_str)
        = (Raise (value_error_int group), [])).
Proof.
  split; [|split; [|split]].
  - intros e log.
    destruct (parse_duration_string_cases duration_str)
      as [(z & l & -> & _)|(e' & -> & Hclass)]; [discriminate|].
    now intros [= <- <-].
  - intros Hcount Hdigits. unfold parse_duration_to_seconds.
    destruct (isdigit duration_str) eqn:Hisdigit.
    + destruct duration_str as [|c s]; [discriminate|].
      destruct (int_of_decimal c s (Hdigits eq_refl) Hcount) as (z & Hz & _).
      cbn [int lift]. rewrite Hz. eauto.
    + destruct (unit_seconds_ok "h" 3600 duration_str Hcount) as (h & ->).
      destruct (unit_seconds_ok "m" 60 duration_str Hcount) as (m & ->).
      destruct (unit_seconds_ok "s" 1 duration_str Hcount) as (s & ->).
      cbn [bind app].
      destruct ((0 + h + m + s =? 0)%Z && strip_nonempty duration_str).
      * cbn [int lift]. destruct (int_of_str duration_str) as [z|]; cbn; eauto.
        exists 0%Z, [could_not_parse duration_str]. split; [reflexivity|].
        right. now split.
      * cbn. eauto.
  - intros Hisdigit Hcount. unfold parse_duration_to_seconds.
    rewrite Hisdigit. cbn [int lift].
    now rewrite (int_of_str_beyond _ Hcount).
  - intros group Hisdigit Hgroup Hcount. unfold parse_duration_to_seconds.
    rewrite Hisdigit. unfold unit_seconds at 1. rewrite Hgroup.
    cbn [int lift]. now rewrite (int_of_str_beyond _ Hcount).
Qed.

Lemma parse_duration_returns_on_strings_witness :
  (exists seconds log,
     parse_duration_to_seconds (JStr "about 3 hours") = (Ok seconds, log)
     /\ (log = [] \/ (seconds = 0%Z /\ log = [could_not_parse "about 3 hours"])))
  /\ parse_duration_to_seconds (JStr many_digits)
     = (Raise (value_error_int many_digits), [])
  /\ parse_duration_to_seconds (JStr (many_digits ++ "h"))
     = (Raise (value_error_int many_digits), []).
Proof.
  split; [|split].
  - apply (proj1 (proj2 (parse_duration_returns_on_strings "about 3 hours"))).
    + vm_compute. discriminate.
    + intros H. discriminate H.
  - apply (proj1 (proj2 (proj2 (parse_duration_returns_on_strings many_digits)))).
    + vm_compute. reflexivity.
    + vm_compute. reflexivity.
  - apply (proj2 (proj2 (proj2
             (parse_duration_returns_on_strings (many_digits ++ "h"))))).
    + vm_compute. reflexivity.
    + vm_compute. reflexivity.
    + vm_compute. reflexivity.
Defined.

(** *** More on verdicts *)

Lemma process_item_retained (bucket : string)
    (processed_data : list (dict JSON)) (item : JSON) :
  orderly item ->
  exists log,
    process_item bucket processed_data item
    = (Ok (retained processed_data item), log).
Proof.
  intros (verdict & -> & Hconv). unfold process_item, subscript, retained.
  destruct (dict_get "idx" verdict) as [idx|] eqn:Hidx; cbn; [|eauto].
  destruct (int idx) as [index|e] eqn:Hint; cbn.
  - destruct (0 <=? index)%Z eqn:Hle; cbn.
    + destruct (index <? Z.of_nat (length processed_data))%Z eqn:Hlt; cbn.
      * apply Z.leb_le in Hle. apply Z.ltb_lt in Hlt.
        destruct (nth_error processed_data (Z.to_nat index)) eqn:Hnth; cbn.
        -- destruct (dict_get "reason" verdict); cbn; eauto.
        -- apply nth_error_None in Hnth. lia.
      * apply Z.ltb_ge in Hlt.
        assert (nth_error processed_data (Z.to_nat index) = None) as ->
          by (apply nth_error_None; lia).
        destruct (str_of_int index) as [numeral|e] eqn:Hprint; cbn;
          [|rewrite (str_of_int_raises _ _ Hprint); cbn];
          destruct (dict_get "reason" verdict); cbn; eauto.
    + destruct (str_of_int index) as [numeral|e] eqn:Hprint; cbn;
        [|rewrite (str_of_int_raises _ _ Hprint); cbn];
        destruct (dict_get "reason" verdict); cbn; eauto.
  - rewrite (Hconv idx eq_refl e Hint). cbn.
    destruct (dict_get "reason" verdict); eauto.
Qed.

Lemma process_items_retained (bucket : string)
    (processed_data : list (dict JSON)) (items : list JSON) :
  Forall orderly items ->
  forall acc, exists log,
    process_items bucket processed_data items acc
    = (Ok (acc ++ omap (retained processed_data) items), log).
Proof.
  induction 1 as [|item items Hitem _ IH]; intros acc; cbn [process_items].
  - exists []. cbn. now rewrite app_nil_r.
  - destruct (process_item_retained bucket processed_data item Hitem)
      as (log & ->).
    cbn [bind omap list_omap].
    destruct (retained processed_data item) as [content_item|].
    + destruct (IH (acc ++ [content_item])) as (log' & ->).
      rewrite <- app_assoc. cbn. eauto.
    + destruct (IH acc) as (log' & ->). eauto.
Qed.

Lemma process_bucket_retained (bucket : string) (response : dict JSON)
    (processed_data : list (dict JSON)) (verdicts : list JSON) :
  get_bucket (JDict response) bucket = Ok (JList verdicts) ->
  Forall orderly verdicts ->
  exists log,
    process_bucket bucket (JDict response) processed_data
    = (Ok (omap (retained processed_data) verdicts), log).
Proof.
  intros Hget Horderly. unfold process_bucket. rewrite Hget. cbn.
  destruct (process_items_retained bucket processed_data verdicts Horderly [])
    as (log & ->).
  eauto.
Qed.

(** X22. On a response that is a non-empty object whose buckets, where
    present, are lists of orderly verdicts (mappings whose [idx] is an
    integer, a boolean, a string or a finite float),
    [parse_curation_response] returns without raising, and each bucket
    of the result holds, in verdict order, the batch record of every
    verdict that has an in-range [idx] and a [reason], with the reason
    set; the other verdicts leave nothing, and a missing bucket is
    empty. *)
Theorem orderly_response_is_reconciled
    (response : dict JSON) (processed_data : list (dict JSON))
    (first second third : list JSON) :
  response <> [] ->
  get_bucket (JDict response) "must_see" = Ok (JList first) ->
  get_bucket (JDict response) "might_be_interested" = Ok (JList second) ->
  get_bucket (JDict response) "you_may_skip" = Ok (JList third) ->
  Forall orderly first -> Forall orderly second -> Forall orderly third ->
  (parse_curation_response (JDict response) processed_data).1 =
  Ok (Some {| must_see := omap (retained processed_data) first;
              might_be_interested := omap (retained processed_data) second;
              you_may_skip := omap (retained processed_data) third |}).
Proof.
  intros Hne H1 H2 H3 O1 O2 O3. unfold parse_curation_response.
  destruct response as [|kv response]; [easy|]. cbn [truthy negb].
  destruct (process_bucket_retained "must_see" _ processed_data first H1 O1)
    as (log1 & ->).
  destruct (process_bucket_retained "might_be_interested" _ processed_data
              second H2 O2) as (log2 & ->).
  destruct (process_bucket_retained "you_may_skip" _ processed_data third H3 O3)
    as (log3 & ->).
  reflexivity.
Qed.

Lemma orderly_response_is_reconciled_witness :
  (parse_curation_response sound_response one_record).1 =
  Ok (Some {| must_see := [[("channel", JStr "channel-a");
                            ("duration", JStr "12m");
                            ("reason", JStr "worth the time")]];
              might_be_interested := [];
              you_may_skip := [] |}).
Proof.
  refine (orderly_response_is_reconciled
            [("must_see",
              JList [JDict [("idx", JInt 0); ("reason", JStr "worth the time")]])]
            one_record
            [JDict [("idx", JInt 0); ("reason", JStr "worth the time")]] [] []
            _ eq_refl eq_refl eq_refl _ _ _).
  - discriminate.
  - constructor; [|constructor].
    eexists. split; [reflexivity|]. intros idx [= <-] e He. discriminate He.
  - constructor.
  - constructor.
Defined.

(** The record a curated item was made from. *)
Lemma process_item_made_from (bucket : string)
    (processed_data : list (dict JSON)) (item : JSON)
    (content_item : dict JSON) (log : Log) :
  process_item bucket processed_data item = (Ok (Some content_item), log) ->
  exists record reason,
    record ∈ processed_data
    /\ content_item = dict_set "reason" reason record.
Proof.
  unfold process_item, subscript.
  destruct item as [| | | | | |verdict]; try discriminate.
  destruct (dict_get "idx" verdict) as [idx|]; [|discriminate]. cbn.
  destruct (int idx) as [index|e]; cbn.
  - destruct ((0 <=? index)%Z && (index <? Z.of_nat (length processed_data))%Z).
    + destruct (nth_error processed_data (Z.to_nat index)) as [record|] eqn:Hnth;
        [|discriminate].
      destruct (dict_get "reason" verdict) as [reason|]; [|discriminate].
      cbn. intros [= <- _]. exists record, reason. split; [|reflexivity].
      apply list_elem_of_In. eapply nth_error_In, Hnth.
    + destruct (str_of_int index) as [numeral|e]; cbn; [discriminate|].
      destruct (caught_in_bucket (exc_class e)); discriminate.
  - destruct (caught_in_bucket (exc_class e)); discriminate.
Qed.

Lemma process_items_made_from (bucket : string)
    (processed_data : list (dict JSON)) (P : dict JSON -> Prop)
    (items : list JSON) :
  (forall record reason, record ∈ processed_data ->
                         P (dict_set "reason" reason record)) ->
  forall acc out log,
    Forall P acc ->
    process_items bucket processed_data items acc = (Ok out, log) ->
    Forall P out.
Proof.
  intros HP. induction items as [|item items IH]; intros acc out log Hacc;
    cbn [process_items].
  - now intros [= <- _].
  - destruct (process_item bucket processed_data item) as [[r|e] log1] eqn:Hitem;
      [|discriminate].
    cbn [bind].
    destruct (process_items bucket processed_data items _) as [res log2] eqn:Hrest.
    intros [= -> _]. eapply IH; [|exact Hrest].
    destruct r as [content_item|]; [|exact Hacc].
    apply Forall_app. split; [exact Hacc|]. constructor; [|constructor].
    destruct (process_item_made_from _ _ _ _ _ Hitem) as (record & reason & Hin & ->).
    now apply HP.
Qed.

Lemma process_bucket_made_from (bucket : string) (curated_content : JSON)
    (processed_data : list (dict JSON)) (P : dict JSON -> Prop)
    (out : list (dict JSON)) (log : Log) :
  (forall record reason, record ∈ processed_data ->
                         P (dict_set "reason" reason record)) ->
  process_bucket bucket curated_content processed_data = (Ok out, log) ->
  Forall P out.
Proof.
  intros HP. unfold process_bucket.
  destruct (get_bucket curated_content bucket) as [v|e]; [|discriminate].
  cbn [lift bind]. destruct (iterate v) as [items|e]; [|discriminate].
  cbn [bind].
  destruct (process_items bucket processed_data items []) as [res log'] eqn:H.
  intros [= -> _].
  eapply (process_items_made_from bucket processed_data P items HP); eauto.
Qed.

(** X23. Whatever the response, every item of every bucket that
    [parse_curation_response] returns is a record of the batch in which
    only the field [reason] was set: it carries a reason, and every
    other field reads as in the record. *)
Theorem curated_items_are_batch_records
    (curated_content : JSON) (processed_data : list (dict JSON))
    (curated : Curated) (content_item : dict JSON) :
  (parse_curation_response curated_content processed_data).1
    = Ok (Some curated) ->
  content_item ∈ curated_items curated ->
  exists record reason,
    record ∈ processed_data
    /\ dict_get "reason" content_item = Some reason
    /\ forall k, k <> "reason" ->
                 dict_get k content_item = dict_get k record.
Proof.
  set (P := fun ci : dict JSON =>
              exists record reason,
                record ∈ processed_data
                /\ dict_get "reason" ci = Some reason
                /\ forall k, k <> "reason" -> dict_get k ci = dict_get k record).
  assert (forall record reason, record ∈ processed_data ->
                                P (dict_set "reason" reason record)) as HP.
  { intros record reason Hin. exists record, reason. split; [exact Hin|].
    split.
    - now rewrite dict_get_set, String.eqb_refl.
    - intros k Hk. rewrite dict_get_set.
      destruct (String.eqb_spec "reason" k); congruence. }
  unfold parse_curation_response.
  destruct (negb (truthy curated_content)); [discriminate|].
  destruct (process_bucket "must_see" curated_content processed_data)
    as [[a|e] log1] eqn:Ha; [|discriminate].
  cbn [bind].
  destruct (process_bucket "might_be_interested" curated_content processed_data)
    as [[b|e] log2] eqn:Hb; [|discriminate].
  cbn [bind].
  destruct (process_bucket "you_may_skip" curated_content processed_data)
    as [[c|e] log3] eqn:Hc; [|discriminate].
  cbn. intros [= <-]. unfold curated_items. cbn.
  pose proof (process_bucket_made_from _ _ _ P _ _ HP Ha) as Fa.
  pose proof (process_bucket_made_from _ _ _ P _ _ HP Hb) as Fb.
  pose proof (process_bucket_made_from _ _ _ P _ _ HP Hc) as Fc.
  rewrite !elem_of_app. rewrite Forall_forall in Fa, Fb, Fc.
  intros [H|[H|H]]; [apply Fa | apply Fb | apply Fc]; exact H.
Qed.

Lemma curated_items_are_batch_records_witness :
  exists record reason,
    record ∈ one_record
    /\ dict_get "reason"
         [("channel", JStr "channel-a"); ("duration", JStr "12m");
          ("reason", JStr "worth the time")] = Some reason
    /\ forall k, k <> "reason" ->
         dict_get k [("channel", JStr "channel-a"); ("duration", JStr "12m");
                     ("reason", JStr "worth the time")] = dict_get k record.
Proof.
  apply (curated_items_are_batch_records sound_response one_record
           {| must_see := [[("channel", JStr "channel-a");
                            ("duration", JStr "12m");
                            ("reason", JStr "worth the time")]];
              might_be_interested := []; you_may_skip := [] |}).
  - reflexivity.
  - apply list_elem_of_here.
Defined.

(** X24. A response that is valid JSON but not an object, and not
    falsy either (a non-empty list or string, a non-zero number, [true]),
    makes [parse_curation_response] raise an [AttributeError] before any
    verdict is looked at. *)
Theorem non_object_response_raises
    (curated_content : JSON) (processed_data : list (dict JSON)) :
  truthy curated_content = true ->
  (forall d, curated_content <> JDict d) ->
  exists e,
    parse_curation_response curated_content processed_data = (Raise e, [])
    /\ exc_class e = AttributeError.
Proof.
  intros Htruthy Hobj. unfold parse_curation_response. rewrite Htruthy.
  destruct curated_content as [| | | | | |d]; try (cbn; eauto; fail).
  now destruct (Hobj d).
Qed.

Lemma non_object_response_raises_witness :
  exists e,
    parse_curation_response (JList [JInt 1]) one_record = (Raise e, [])
    /\ exc_class e = AttributeError.
Proof.
  apply (non_object_response_raises (JList [JInt 1]) one_record).
  - reflexivity.
  - intros d H. discriminate H.
Defined.

(** *** Sums of durations *)

Lemma duration_sum_total (items : list (dict JSON)) : forall acc : Z,
  (forall item, item ∈ items -> is_Some (seconds_of item)) ->
  (duration_sum items acc).1 = Ok (acc + total_seconds items)%Z.
Proof.
  induction items as [|item items IH]; intros acc Hall.
  - cbn. f_equal. lia.
  - change (total_seconds (item :: items))
      with (default 0 (seconds_of item) + total_seconds items)%Z.
    destruct (Hall item (list_elem_of_here _ _)) as [seconds Hs].
    rewrite Hs. cbn [default]. unfold seconds_of in Hs.
    cbn [duration_sum]. unfold subscript.
    destruct (dict_get "duration" item) as [duration|]; [|discriminate].
    cbn [lift bind].
    destruct (parse_duration_to_seconds duration) as [[z|e] log];
      [|discriminate].
    cbn [fst] in Hs. injection Hs as ->. cbn [bind].
    specialize (IH (acc + seconds)%Z
                  (fun i Hi => Hall i (list_elem_of_further _ _ _ Hi))).
    destruct (duration_sum items (acc + seconds)) as [r log'].
    unfold id, fst in *. rewrite IH. f_equal. lia.
Qed.

Lemma duration_sum_fails (items : list (dict JSON)) (item : dict JSON) :
  item ∈ items -> seconds_of item = None ->
  forall acc, exists e log, duration_sum items acc = (Raise e, log).
Proof.
  intros Hin Hnone.
  induction items as [|item' items IH]; [now apply elem_of_nil in Hin|].
  intros acc. cbn [duration_sum]. unfold subscript.
  apply elem_of_cons in Hin as [<-|Hin].
  - unfold seconds_of in Hnone.
    destruct (dict_get "duration" item) as [duration|]; [|cbn; eauto].
    cbn [lift bind].
    destruct (parse_duration_to_seconds duration) as [[z|e] log];
      [discriminate|cbn; eauto].
  - destruct (dict_get "duration" item') as [duration|]; [|cbn; eauto].
    cbn [lift bind].
    destruct (parse_duration_to_seconds duration) as [[z|e] log];
      [|cbn; eauto].
    cbn [bind]. destruct (IH Hin (acc + z)%Z) as (e & log' & ->). eauto.
Qed.

(** X25. The sum [main] computes for a bucket returns exactly when the
    [duration] of every item is there and parses, and is then the sum of
    the items' seconds; an item whose [duration] is missing or does not
    parse (a string of more digits than [int] accepts, for one) makes the
    sum raise. *)
Theorem duration_sum_is_the_total (items : list (dict JSON)) (acc : Z) :
  ((forall item, item ∈ items -> is_Some (seconds_of item)) ->
   (duration_sum items acc).1 = Ok (acc + total_seconds items)%Z)
  /\ (forall item, item ∈ items -> seconds_of item = None ->
      exists e, (duration_sum items acc).1 = Raise e).
Proof.
  split.
  - apply duration_sum_total.
  - intros item Hin Hnone.
    destruct (duration_sum_fails items item Hin Hnone acc) as (e & log & ->).
    now exists e.
Qed.

Lemma duration_sum_is_the_total_witness :
  (duration_sum [[("duration", JStr "1h 30m")]; [("duration", JInt 45)]] 0).1
  = Ok 5445%Z
  /\ exists e,
       (duration_sum [[("duration", JStr "1h 30m")];
                      [("duration", JStr many_digits)]] 0).1 = Raise e.
Proof.
  split.
  - apply (proj1 (duration_sum_is_the_total
                    [[("duration", JStr "1h 30m")]; [("duration", JInt 45)]] 0)).
    intros item Hin.
    apply elem_of_cons in Hin as [->|Hin]; [now eexists|].
    apply list_elem_of_singleton in Hin as ->. now eexists.
  - apply (proj2 (duration_sum_is_the_total
                    [[("duration", JStr "1h 30m")];
                     [("duration", JStr many_digits)]] 0)
             [("duration", JStr many_digits)]).
    + apply list_elem_of_further, list_elem_of_here.
    + vm_compute. reflexivity.
Defined.

Lemma duration_sum_raises (items : list (dict JSON)) (item : dict JSON) :
  item ∈ items -> dict_get "duration" item = None ->
  forall acc, exists e log, duration_sum items acc = (Raise e, log).
Proof.
  intros Hin Hnone. apply (duration_sum_fails items item Hin).
  unfold seconds_of. now rewrite Hnone.
Qed.

(** What parsing a duration logs is at most the warning, and what it
    raises is a [ValueError] or a [TypeError]. *)
Lemma parse_duration_quiet (duration : JSON) (r : Result Z) (log : Log) :
  parse_duration_to_seconds duration = (r, log) ->
  Forall duration_warning log
  /\ forall e, r = Raise e ->
               exc_class e = ValueError \/ exc_class e = TypeError.
Proof.
  destruct duration as [| | | |duration_str| |];
    try (intros [= <- <-]; split; [constructor|];
         intros e; try discriminate; intros [= <-]; now right).
  destruct (parse_duration_string_cases duration_str)
    as [(z & l & -> & Hlog)|(e' & -> & Hclass)]; intros [= <- <-].
  - split; [|discriminate].
    destruct Hlog as [->|[_ ->]]; [constructor|].
    constructor; [now exists duration_str | constructor].
  - split; [constructor|]. intros e [= <-]. now left.
Qed.

Lemma duration_sum_quiet (items : list (dict JSON)) :
  forall (acc : Z) (r : Result Z) (log : Log),
    duration_sum items acc = (r, log) ->
    Forall duration_warning log
    /\ forall e, r = Raise e ->
                 exc_class e = KeyError \/ exc_class e = ValueError
                 \/ exc_class e = TypeError.
Proof.
  induction items as [|item items IH]; intros acc r log; cbn [duration_sum].
  - intros [= <- <-]. split; [constructor | discriminate].
  - unfold subscript. destruct (dict_get "duration" item) as [duration|].
    + cbn [lift bind].
      destruct (parse_duration_to_seconds duration) as [[z|e] log1] eqn:Hparse;
        destruct (parse_duration_quiet _ _ _ Hparse) as [Hlog1 Hclass1].
      * cbn [bind].
        destruct (duration_sum items (acc + z)) as [r2 log2] eqn:Hrest.
        destruct (IH _ _ _ Hrest) as [Hlog2 Hclass2].
        intros [= <- <-]. split; [now apply Forall_app|exact Hclass2].
      * intros [= <- <-]. split; [exact Hlog1|].
        intros e' [= <-]. right. now apply Hclass1.
    + intros [= <- <-]. split; [constructor|]. intros e [= <-]. now left.
Qed.

(** *** The run of the Classifier *)

Section RunSpec.

Variable load_curator_config : Result (string * string).
Variable json_dumps : list (dict JSON) -> string.
Variable api_text_completion : string -> string -> string -> Result string.
Variable json_loads : string -> option JSON.

Local Abbreviation get_llm_curation_of :=
  (get_llm_curation load_curator_config json_dumps api_text_completion
     json_loads).
Local Abbreviation curate_content_of :=
  (curate_content load_curator_config json_dumps api_text_completion
     json_loads).
Local Abbreviation main_of :=
  (main load_curator_config json_dumps api_text_completion json_loads).

Lemma main_started (files : Files) (processed_data : list (dict JSON)) :
  processed_results_json files = Some processed_data ->
  main_of files =
  match curate_content_of processed_data with
  | (Ok (Some curated_results), log) =>
      ({| processed_results_json := processed_results_json files;
          curated_results_json := Some curated_results |},
       bind (Ok tt, curating processed_data :: log)
         (fun _ => report processed_data curated_results))
  | (Ok None, log) =>
      (files, (Ok tt, curating processed_data :: log
                      ++ [mkLog ERROR "Curation failed" []]))
  | (Raise e, log) => (files, (Raise e, curating processed_data :: log))
  end.
Proof.
  intros Hfile. unfold main. rewrite Hfile. cbn [tell bind].
  destruct (curate_content_of processed_data) as [[[cr|]|e] log]; reflexivity.
Qed.

(** X26. A response that parses to a falsy JSON value (an empty object
    or list, [null], zero, an empty string, [false]) counts as a failed
    curation: nothing is written and the run ends on the record that
    curation failed, without the response having been logged. *)
Theorem falsy_response_is_a_failure
    (processed_data : list (dict JSON)) (files : Files)
    (system_prompt model response : string) (curated_content : JSON) :
  processed_results_json files = Some processed_data ->
  load_curator_config = Ok (system_prompt, model) ->
  api_text_completion model system_prompt (json_dumps processed_data)
    = Ok response ->
  json_loads response = Some curated_content ->
  truthy curated_content = false ->
  main_of files =
  (files, (Ok tt, [curating processed_data;
                   mkLog ERROR "Curation failed" []])).
Proof.
  intros Hfile Hconfig Hcall Hparse Hfalsy.
  rewrite (main_started files processed_data Hfile).
  unfold curate_content, get_llm_curation. rewrite Hconfig. cbn [lift bind].
  rewrite Hcall. cbn [bind]. rewrite Hparse. cbn [ret bind].
  unfold parse_curation_response. rewrite Hfalsy. reflexivity.
Qed.

(** X27. A fault raised while the configuration is loaded or by the
    call to the judgment service is not caught: [main] ends by raising
    it, having written nothing and logged only that it started. *)
Theorem service_failure_propagates
    (processed_data : list (dict JSON)) (files : Files) (e : Exc) :
  processed_results_json files = Some processed_data ->
  load_curator_config = Raise e
  \/ (exists system_prompt model,
        load_curator_config = Ok (system_prompt, model)
        /\ api_text_completion model system_prompt (json_dumps processed_data)
           = Raise e) ->
  main_of files = (files, (Raise e, [curating processed_data])).
Proof.
  intros Hfile Hfault. rewrite (main_started files processed_data Hfile).
  unfold curate_content, get_llm_curation.
  destruct Hfault as [->|(system_prompt & model & -> & Hcall)].
  - reflexivity.
  - cbn [lift bind]. now rewrite Hcall.
Qed.

(** X29. The artifact is written before the durations are summed: when
    [curate_content] returns a result one of whose items has no
    [duration], [main] writes the artifact and then ends by raising a
    [KeyError], a [ValueError] or a [TypeError], without its summary: after
    the records of the curation it has logged nothing but warnings about
    durations that could not be parsed. *)
Theorem missing_duration_raises_after_writing
    (processed_data : list (dict JSON)) (files : Files)
    (curated_results : Curated) (log : Log) (item : dict JSON) :
  processed_results_json files = Some processed_data ->
  curate_content_of processed_data = (Ok (Some curated_results), log) ->
  item ∈ curated_items curated_results ->
  dict_get "duration" item = None ->
  curated_results_json (main_of files).1 = Some curated_results
  /\ exists e warnings,
       (main_of files).2
       = (Raise e, curating processed_data :: log ++ warnings)
       /\ Forall duration_warning warnings
       /\ (exc_class e = KeyError \/ exc_class e = ValueError
           \/ exc_class e = TypeError).
Proof.
  intros Hfile Hcurate Hin Hnone.
  rewrite (main_started files processed_data Hfile), Hcurate.
  split; [reflexivity|]. cbn [snd bind]. unfold report.
  unfold curated_items in Hin. rewrite !elem_of_app in Hin.
  destruct (duration_sum (must_see curated_results) 0) as [[d1|e1] l1] eqn:H1;
    destruct (duration_sum_quiet _ _ _ _ H1) as [W1 C1];
    [|cbn; exists e1, l1; repeat split; auto].
  cbn [bind].
  destruct (duration_sum (might_be_interested curated_results) 0)
    as [[d2|e2] l2] eqn:H2;
    destruct (duration_sum_quiet _ _ _ _ H2) as [W2 C2];
    [|cbn; exists e2, (l1 ++ l2); rewrite <- ?app_assoc;
      repeat split; auto using Forall_app_2].
  cbn [bind].
  destruct (duration_sum (you_may_skip curated_results) 0)
    as [[d3|e3] l3] eqn:H3;
    destruct (duration_sum_quiet _ _ _ _ H3) as [W3 C3];
    [|cbn; exists e3, (l1 ++ l2 ++ l3); rewrite <- ?app_assoc;
      repeat split; auto using Forall_app_2].
  exfalso. destruct Hin as [Hin|[Hin|Hin]].
  - destruct (duration_sum_raises _ item Hin Hnone 0%Z) as (e & l & He).
    congruence.
  - destruct (duration_sum_raises _ item Hin Hnone 0%Z) as (e & l & He).
    congruence.
  - destruct (duration_sum_raises _ item Hin Hnone 0%Z) as (e & l & He).
    congruence.
Qed.

End RunSpec.

Lemma falsy_response_is_a_failure_witness :
  main (Ok ("system", "model")) indented_dumps (answering "{}")
    (reading_as (JDict [])) files_of_the_day
  = (files_of_the_day,
     (Ok tt, [curating one_record; mkLog ERROR "Curation failed" []])).
Proof.
  exact (falsy_response_is_a_failure (Ok ("system", "model")) indented_dumps
           (answering "{}") (reading_as (JDict [])) one_record files_of_the_day
           "system" "model" "{}" (JDict []) eq_refl eq_refl eq_refl eq_refl
           eq_refl).
Defined.

Lemma service_failure_propagates_witness :
  main (Ok ("system", "model")) indented_dumps failing_service no_json
    files_of_the_day
  = (files_of_the_day,
     (Raise (mkExc (OtherException "APIError") "unavailable"),
      [curating one_record])).
Proof.
  apply (service_failure_propagates (Ok ("system", "model")) indented_dumps
           failing_service no_json one_record files_of_the_day).
  - reflexivity.
  - right. exists "system", "model". now split.
Defined.

Lemma missing_duration_raises_after_writing_witness :
  curated_results_json
    (main (Ok ("system", "model")) indented_dumps (answering "{...}")
       (reading_as sound_response)
       {| processed_results_json := Some record_without_duration;
          curated_results_json := None |}).1
  = Some {| must_see := [[("channel", JStr "channel-a");
                          ("reason", JStr "worth the time")]];
            might_be_interested := []; you_may_skip := [] |}
  /\ exists e warnings,
       (main (Ok ("system", "model")) indented_dumps (answering "{...}")
          (reading_as sound_response)
          {| processed_results_json := Some record_without_duration;
             curated_results_json := None |}).2
       = (Raise e, curating record_without_duration :: [] ++ warnings)
       /\ Forall duration_warning warnings
       /\ (exc_class e = KeyError \/ exc_class e = ValueError
           \/ exc_class e = TypeError).
Proof.
  apply (missing_duration_raises_after_writing (Ok ("system", "model"))
           indented_dumps (answering "{...}") (reading_as sound_response)
           record_without_duration _ _ []
           [("channel", JStr "channel-a"); ("reason", JStr "worth the time")]).
  - reflexivity.
  - reflexivity.
  - apply list_elem_of_here.
  - reflexivity.
Defined.

(** *** Printing a duration and reading it back *)

Lemma int_literal_leading_decimal (c : ascii) (s : string) :
  is_decimal c = true -> int_literal (String c s) = int_digits 0 (String c s).
Proof.
  intros Hc. unfold int_literal. cbn [drop_while int_digits].
  rewrite (decimal_not_space c Hc), Hc.
  assert (int_unsigned (String c s) = int_digits (10 * 0 + digit_val c) s) as Hu
    by (simpl; now rewrite Hc).
  destruct c as [[] [] [] [] [] [] [] []]; try discriminate Hc; exact Hu.
Qed.

Lemma int_digits_of_uint_acc (d : Decimal.uint) : forall acc : positive,
  int_digits (Z.pos acc) (NilEmpty.string_of_uint d)
  = Some (Z.pos (Pos.of_uint_acc d acc)).
Proof.
  induction d as [|d IH|d IH|d IH|d IH|d IH|d IH|d IH|d IH|d IH|d IH];
    intros acc; [reflexivity|..];
    cbn [NilEmpty.string_of_uint int_digits Pos.of_uint_acc];
    match goal with
    | |- context [is_decimal ?c] =>
        change (is_decimal c) with true; cbv iota;
        let v := eval vm_compute in (digit_val c) in
        change (digit_val c) with v
    end;
    rewrite <- IH; f_equal; lia.
Qed.

Lemma int_digits_of_uint (d : Decimal.uint) :
  int_digits 0 (NilEmpty.string_of_uint d) = Some (Z.of_N (Pos.of_uint d)).
Proof.
  induction d as [|d IH|d IH|d IH|d IH|d IH|d IH|d IH|d IH|d IH|d IH];
    [reflexivity | exact IH |..];
    cbn [NilEmpty.string_of_uint int_digits Pos.of_uint];
    match goal with
    | |- context [is_decimal ?c] =>
        change (is_decimal c) with true; cbv iota;
        let v := eval vm_compute in (10 * 0 + digit_val c)%Z in
        change (10 * 0 + digit_val c)%Z with v
    end;
    apply int_digits_of_uint_acc.
Qed.

Lemma string_of_uint_decimal (d : Decimal.uint) :
  str_forall is_decimal (NilEmpty.string_of_uint d) = true.
Proof.
  induction d as [|d IH|d IH|d IH|d IH|d IH|d IH|d IH|d IH|d IH|d IH];
    [reflexivity|..]; exact IH.
Qed.

(** The value of a run of [k] digits read after [acc]: [acc] shifted by
    [k] places plus a number of at most [k] digits. *)
Lemma int_digits_value (s : string) : forall acc : Z,
  str_forall is_decimal s = true ->
  exists v,
    int_digits acc s = Some (acc * 10 ^ Z.of_N (count_decimal s) + v)%Z
    /\ (0 <= v < 10 ^ Z.of_N (count_decimal s))%Z.
Proof.
  induction s as [|c s IH]; intros acc.
  - intros _. exists 0%Z. cbn. split; [f_equal; lia | lia].
  - cbn [str_forall int_digits count_decimal].
    intros [Hc Hs]%andb_true_iff. rewrite Hc.
    destruct (IH (10 * acc + digit_val c)%Z Hs) as (v & -> & Hv).
    rewrite N2Z.inj_succ, Z.pow_succ_r by lia.
    assert (0 <= digit_val c <= 9)%Z as Hd.
    { unfold digit_val. unfold is_decimal in Hc.
      apply andb_true_iff in Hc as [Hlo%N.leb_le Hhi%N.leb_le]. lia. }
    exists (digit_val c * 10 ^ Z.of_N (count_decimal s) + v)%Z.
    split; [f_equal; lia | nia].
Qed.

(** The numeral of a positive number has no leading zero. *)
Lemma numeral_head (p : positive) :
  exists c s,
    NilEmpty.string_of_uint (Pos.to_uint p) = String c s
    /\ is_decimal c = true /\ (1 <= digit_val c)%Z
    /\ str_forall is_decimal s = true.
Proof.
  assert (Decimal.unorm (Pos.to_uint p) = Pos.to_uint p) as Hnorm.
  { rewrite <- (DecimalPos.Unsigned.to_of (Pos.to_uint p)).
    now rewrite DecimalPos.Unsigned.of_to. }
  pose proof (DecimalPos.Unsigned.to_uint_nonnil p) as Hnil.
  pose proof (DecimalPos.Unsigned.to_uint_nonzero p) as Hzero.
  destruct (Pos.to_uint p) as [|d|d|d|d|d|d|d|d|d|d]; [easy| |..];
    try (eexists _, _; split; [reflexivity|];
         split; [reflexivity|]; split; [now vm_compute|];
         apply string_of_uint_decimal).
  exfalso. rewrite DecimalFacts.unorm_D0 in Hnorm.
  destruct d as [|d|d|d|d|d|d|d|d|d|d]; [easy|..];
    match type of Hnorm with
    | Decimal.unorm ?u = _ =>
        pose proof (DecimalFacts.nb_digits_unorm u ltac:(discriminate)) as Hle;
        rewrite Hnorm in Hle; cbn [Decimal.nb_digits] in Hle; lia
    end.
Qed.

(** The numeral of a positive number has as many digits as the number
    has places. *)
Lemma numeral_digits (p : positive) :
  let digits := Z.of_N (count_decimal (NilEmpty.string_of_uint (Pos.to_uint p))) in
  (10 ^ (digits - 1) <= Z.pos p < 10 ^ digits)%Z.
Proof.
  cbv zeta.
  pose proof (int_digits_of_uint (Pos.to_uint p)) as Hval.
  rewrite DecimalPos.Unsigned.of_to in Hval.
  destruct (numeral_head p) as (c & s & Hs & Hc & Hd & Hdec). rewrite Hs in *.
  cbn [int_digits count_decimal] in *. rewrite Hc in *.
  destruct (int_digits_value s (10 * 0 + digit_val c)%Z Hdec) as (v & Hv & Hbound).
  rewrite Hv in Hval. injection Hval as Hval.
  assert (digit_val c <= 9)%Z as Hd9.
  { unfold digit_val. unfold is_decimal in Hc.
    apply andb_true_iff in Hc as [_ Hhi%N.leb_le]. lia. }
  rewrite N2Z.inj_succ.
  replace (Z.succ (Z.of_N (count_decimal s)) - 1)%Z
    with (Z.of_N (count_decimal s)) by lia.
  rewrite Z.pow_succ_r by lia. cbn [Z.of_N] in Hval. nia.
Qed.

Lemma numeral_of_pos (p : positive) :
  NilZero.string_of_int (Z.to_int (Z.pos p))
  = NilEmpty.string_of_uint (Pos.to_uint p).
Proof.
  cbn [Z.to_int NilZero.string_of_int NilZero.string_of_uint].
  pose proof (DecimalPos.Unsigned.to_uint_nonnil p) as Hnil.
  now destruct (Pos.to_uint p).
Qed.

(** A natural number of no more places than the limit is printed: as
    digits only, at least one, which [int] reads back. *)
Lemma str_of_int_decimal (n : Z) :
  (0 <= n < 10 ^ Z.of_N int_max_str_digits)%Z ->
  exists c s, str_of_int n = Ok (String c s)
              /\ str_forall is_decimal (String c s) = true
              /\ int_of_str (String c s) = Some n.
Proof.
  intros [Hn Hsmall]. unfold str_of_int. destruct n as [|p|p]; [| |lia].
  - exists "0"%char, EmptyString. now repeat split.
  - cbv zeta. rewrite numeral_of_pos.
    pose proof (numeral_digits p) as [Hlow _]. cbv zeta in Hlow.
    pose proof (string_of_uint_decimal (Pos.to_uint p)) as Hdec.
    pose proof (int_digits_of_uint (Pos.to_uint p)) as Hval.
    rewrite DecimalPos.Unsigned.of_to in Hval.
    assert (count_decimal (NilEmpty.string_of_uint (Pos.to_uint p))
            <= int_max_str_digits)%N as Hcount.
    { assert (Z.of_N (count_decimal (NilEmpty.string_of_uint (Pos.to_uint p))) - 1
              < Z.of_N int_max_str_digits)%Z; [|lia].
      apply (Z.pow_lt_mono_r_iff 10); lia. }
    rewrite (proj2 (N.ltb_ge _ _) Hcount).
    destruct (numeral_head p) as (c & s & Hs & Hc & _ & _). rewrite Hs in *.
    exists c, s. split; [reflexivity|]. split; [exact Hdec|].
    now rewrite (int_of_str_within _ Hcount), (int_literal_leading_decimal c s Hc).
Qed.

(** A number of more places than the limit is not printed. *)
Lemma str_of_int_beyond (n : Z) :
  (10 ^ Z.of_N int_max_str_digits <= n)%Z ->
  exists e, str_of_int n = Raise e /\ exc_class e = ValueError.
Proof.
  intros Hlarge. unfold str_of_int.
  assert (0 < 10 ^ Z.of_N int_max_str_digits)%Z by (apply Z.pow_pos_nonneg; lia).
  destruct n as [|p|p]; [lia| |lia].
  cbv zeta. rewrite numeral_of_pos.
  pose proof (numeral_digits p) as [_ Hup]. cbv zeta in Hup.
  assert (int_max_str_digits
          < count_decimal (NilEmpty.string_of_uint (Pos.to_uint p)))%N as Hcount.
  { assert (Z.of_N int_max_str_digits
            < Z.of_N (count_decimal (NilEmpty.string_of_uint (Pos.to_uint p))))%Z;
      [|lia].
    apply (Z.pow_lt_mono_r_iff 10); lia. }
  rewrite (proj2 (N.ltb_lt _ _) Hcount). eauto.
Qed.

Lemma minute_count_is_printed (m : Z) :
  (0 <= m < 60)%Z -> (0 <= m < 10 ^ Z.of_N int_max_str_digits)%Z.
Proof.
  intros Hm.
  assert (60 < 10 ^ Z.of_N int_max_str_digits)%Z by (vm_compute; reflexivity).
  lia.
Qed.

Lemma span_digits_run_then (g : string) (c : ascii) (rest : string) :
  str_forall is_decimal g = true -> is_decimal c = false ->
  span_digits (g ++ String c rest) = (g, String c rest).
Proof.
  intros Hg Hc. induction g as [|d g IH].
  - change ("" ++ String c rest)%string with (String c rest). cbn. now rewrite Hc.
  - change (String d g ++ String c rest)%string
      with (String d (g ++ String c rest)%string).
    cbn in Hg. apply andb_true_iff in Hg as [Hd Hg].
    cbn [span_digits]. rewrite Hd, (IH Hg). reflexivity.
Qed.

Lemma search_unit_found (u d : ascii) (g rest : string) :
  str_forall is_decimal (String d g) = true -> is_decimal u = false ->
  search_unit u (String d g ++ String u rest) = Some (String d g).
Proof.
  intros Hg Hu. change (String d g ++ String u rest)%string
    with (String d (g ++ String u rest)%string).
  cbn [search_unit].
  change (String d (g ++ String u rest)%string)
    with (String d g ++ String u rest)%string.
  rewrite (span_digits_run_then _ _ _ Hg Hu). now rewrite Ascii.eqb_refl.
Qed.

Lemma search_unit_skip_char (u c : ascii) (rest : string) :
  is_decimal c = false ->
  search_unit u (String c rest) = search_unit u rest.
Proof. intros Hc. cbn. now rewrite Hc. Qed.

Lemma search_unit_skip_run (u c : ascii) (g rest : string) :
  str_forall is_decimal g = true -> is_decimal c = false ->
  Ascii.eqb c u = false ->
  search_unit u (g ++ String c rest) = search_unit u rest.
Proof.
  intros Hg Hc Hcu. induction g as [|d g IH].
  - change ("" ++ String c rest)%string with (String c rest).
    now apply search_unit_skip_char.
  - change (String d g ++ String c rest)%string
      with (String d (g ++ String c rest)%string).
    cbn [search_unit].
    change (String d (g ++ String c rest)%string)
      with (String d g ++ String c rest)%string.
    rewrite (span_digits_run_then _ _ _ Hg Hc), Hcu.
    cbn in Hg. apply andb_true_iff in Hg as [_ Hg]. now apply IH.
Qed.

Lemma isdigit_with_letter (g : string) (c : ascii) (rest : string) :
  char_isdigit c = false -> isdigit (g ++ String c rest) = false.
Proof.
  intros Hc.
  assert (str_forall char_isdigit (g ++ String c rest) = false) as H.
  { induction g as [|d g IH].
    - change ("" ++ String c rest)%string with (String c rest). cbn. now rewrite Hc.
    - change (String d g ++ String c rest)%string
        with (String d (g ++ String c rest)%string).
      cbn. rewrite IH. apply andb_false_r. }
  unfold isdigit. now destruct (g ++ String c rest)%string.
Qed.

Lemma unit_seconds_found (u d : ascii) (g rest : string) (n factor : Z) :
  str_forall is_decimal (String d g) = true -> is_decimal u = false ->
  int_of_str (String d g) = Some n ->
  unit_seconds u factor (String d g ++ String u rest) = (Ok (n * factor)%Z, []).
Proof.
  intros Hg Hu Hn. unfold unit_seconds.
  rewrite (search_unit_found u d g rest Hg Hu). cbn [int lift bind].
  now rewrite Hn.
Qed.

(** Reading the text of a count of minutes followed by [m]. *)
Lemma minutes_read_back (c : ascii) (s : string) (m : Z) :
  str_forall is_decimal (String c s) = true ->
  int_of_str (String c s) = Some m ->
  let text := (String c s ++ "m")%string in
  unit_seconds "h" 3600 text = (Ok 0%Z, [])
  /\ unit_seconds "m" 60 text = (Ok (m * 60)%Z, [])
  /\ unit_seconds "s" 1 text = (Ok 0%Z, [])
  /\ isdigit text = false.
Proof.
  intros Hdec Hint text. subst text.
  split; [|split; [|split]].
  - unfold unit_seconds.
    now rewrite (search_unit_skip_run "h" "m" _ "" Hdec eq_refl eq_refl).
  - now apply unit_seconds_found.
  - unfold unit_seconds.
    now rewrite (search_unit_skip_run "s" "m" _ "" Hdec eq_refl eq_refl).
  - now apply isdigit_with_letter.
Qed.

(** Reading the text of a count of hours followed by [h], a space, and
    the text of a count of minutes followed by [m]. *)
Lemma hours_minutes_read_back (c c' : ascii) (s s' : string) (h m : Z) :
  str_forall is_decimal (String c s) = true ->
  int_of_str (String c s) = Some h ->
  str_forall is_decimal (String c' s') = true ->
  int_of_str (String c' s') = Some m ->
  let text := (String c s ++ "h " ++ String c' s' ++ "m")%string in
  unit_seconds "h" 3600 text = (Ok (h * 3600)%Z, [])
  /\ unit_seconds "m" 60 text = (Ok (m * 60)%Z, [])
  /\ unit_seconds "s" 1 text = (Ok 0%Z, [])
  /\ isdigit text = false.
Proof.
  intros Hdec Hint Hdec' Hint' text. subst text.
  destruct (minutes_read_back c' s' m Hdec' Hint') as (_ & Mm & Ms & _).
  cbv zeta in Mm, Ms.
  change ("h " ++ String c' s' ++ "m")%string
    with (String "h" (String " " (String c' s' ++ "m")%string)).
  split; [|split; [|split]].
  - now apply unit_seconds_found.
  - unfold unit_seconds in *.
    rewrite (search_unit_skip_run "m" "h" _ _ Hdec eq_refl eq_refl).
    now rewrite (search_unit_skip_char "m" " " _ eq_refl).
  - unfold unit_seconds in *.
    rewrite (search_unit_skip_run "s" "h" _ _ Hdec eq_refl eq_refl).
    now rewrite (search_unit_skip_char "s" " " _ eq_refl).
  - now apply isdigit_with_letter.
Qed.

(** X30. Printing a duration with [format_duration] and reading the text
    back.  A duration of at least a minute whose count of hours has no
    more places than the limit of [int] is printed, and
    [parse_duration_to_seconds] reads the text, silently, as the duration
    rounded down to the minute.  A duration under a minute is printed as
    ["0m"], which reads as 0 with the warning that it could not be
    parsed.  A duration whose count of hours has more places than the
    limit is not printed: [format_duration] raises a [ValueError]. *)
Theorem format_then_parse (seconds : Z) :
  ((60 <= seconds < 3600 * 10 ^ Z.of_N int_max_str_digits)%Z ->
     exists text,
       format_duration seconds = (Ok text, [])
       /\ parse_duration_to_seconds (JStr text)
          = (Ok (seconds - seconds mod 60)%Z, []))
  /\ ((0 <= seconds < 60)%Z ->
     format_duration seconds = (Ok "0m", [])
     /\ parse_duration_to_seconds (JStr "0m")
        = (Ok 0%Z, [could_not_parse "0m"]))
  /\ ((3600 * 10 ^ Z.of_N int_max_str_digits <= seconds)%Z ->
     exists e, format_duration seconds = (Raise e, [])
               /\ exc_class e = ValueError).
Proof.
  assert (0 < 10 ^ Z.of_N int_max_str_digits)%Z as Hlimit
    by (apply Z.pow_pos_nonneg; lia).
  split; [|split].
  - intros [Hs Hsmall]. unfold format_duration.
    assert (0 <= seconds / 3600 < 10 ^ Z.of_N int_max_str_digits)%Z as Hh.
    { split; [apply Z.div_pos; lia|]. apply Z.div_lt_upper_bound; lia. }
    assert (0 <= seconds mod 3600 < 3600)%Z as Hr by (apply Z.mod_pos_bound; lia).
    assert (0 <= (seconds mod 3600) / 60 < 60)%Z as Hm.
    { split; [apply Z.div_pos; lia|]. apply Z.div_lt_upper_bound; lia. }
    assert (seconds / 3600 * 3600 + seconds mod 3600 / 60 * 60
            = seconds - seconds mod 60)%Z as Hsum.
    { pose proof (Z.div_mod seconds 3600 ltac:(lia)) as E1.
      pose proof (Z.div_mod (seconds mod 3600) 60 ltac:(lia)) as E2.
      assert ((seconds mod 3600) mod 60 = seconds mod 60)%Z as E3.
      { apply Z.mod_mod_divide. exists 60%Z. lia. }
      lia. }
    assert (0 < seconds - seconds mod 60)%Z as Hpos.
    { pose proof (Z.mod_pos_bound seconds 60 ltac:(lia)). lia. }
    destruct (str_of_int_decimal _ (minute_count_is_printed _ Hm))
      as (c' & s' & -> & Hdec' & Hint').
    destruct (0 <? seconds / 3600)%Z eqn:Hlt.
    + destruct (str_of_int_decimal _ Hh) as (c & s & -> & Hdec & Hint).
      cbn [lift bind ret app]. eexists. split; [reflexivity|].
      destruct (hours_minutes_read_back c c' s s' _ _ Hdec Hint Hdec' Hint')
        as (Eh & Em & Es & Ed).
      cbv zeta in Eh, Em, Es, Ed. unfold parse_duration_to_seconds.
      rewrite Ed, Eh, Em, Es. cbn [bind app].
      replace (0 + seconds / 3600 * 3600 + seconds mod 3600 / 60 * 60 + 0)%Z
        with (seconds - seconds mod 60)%Z by lia.
      replace (seconds - seconds mod 60 =? 0)%Z with false
        by (symmetry; apply Z.eqb_neq; lia).
      reflexivity.
    + apply Z.ltb_ge in Hlt.
      cbn [lift bind ret app]. eexists. split; [reflexivity|].
      destruct (minutes_read_back c' s' _ Hdec' Hint') as (Eh & Em & Es & Ed).
      cbv zeta in Eh, Em, Es, Ed. unfold parse_duration_to_seconds.
      rewrite Ed, Eh, Em, Es. cbn [bind app].
      replace (0 + 0 + seconds mod 3600 / 60 * 60 + 0)%Z
        with (seconds - seconds mod 60)%Z by lia.
      replace (seconds - seconds mod 60 =? 0)%Z with false
        by (symmetry; apply Z.eqb_neq; lia).
      reflexivity.
  - intros Hs. unfold format_duration.
    rewrite (Z.div_small seconds 3600) by lia.
    rewrite (Z.mod_small seconds 3600) by lia.
    rewrite (Z.div_small seconds 60) by lia. now split.
  - intros Hlarge. unfold format_duration.
    assert (10 ^ Z.of_N int_max_str_digits <= seconds / 3600)%Z as Hh
      by (apply Z.div_le_lower_bound; lia).
    replace (0 <? seconds / 3600)%Z with true
      by (symmetry; apply Z.ltb_lt; lia).
    destruct (str_of_int_beyond _ Hh) as (e & -> & Hclass).
    exists e. now split.
Qed.

Lemma format_then_parse_witness :
  (exists text,
     format_duration 5445 = (Ok text, [])
     /\ parse_duration_to_seconds (JStr text) = (Ok 5400%Z, []))
  /\ parse_duration_to_seconds (JStr "0m") = (Ok 0%Z, [could_not_parse "0m"])
  /\ exists e,
       format_duration (3600 * 10 ^ Z.of_N int_max_str_digits) = (Raise e, [])
       /\ exc_class e = ValueError.
Proof.
  pose proof (format_then_parse 5445) as (Hlong & _ & _).
  pose proof (format_then_parse 59) as (_ & Hshort & _).
  pose proof (format_then_parse (3600 * 10 ^ Z.of_N int_max_str_digits))
    as (_ & _ & Hhuge).
  split; [|split].
  - apply Hlong. split; [lia|]. vm_compute. reflexivity.
  - exact (proj2 (Hshort ltac:(lia))).
  - apply Hhuge. lia.
Defined.

End CurateSpec.
